(** * github-repo-stats: the aggregation of traffic time series fragments

    A shallow embedding of [analyze.py].  The script reads one CSV document
    per snapshot of the GitHub traffic API, checks that all documents carry
    the same columns, concatenates them and keeps, for every timestamp, the
    largest value seen in every column.  The data frames of pandas are
    modelled by the operations the script calls on them. *)

From Stdlib Require Import ZArith Ascii.
From stdpp Require Import base list sorting strings gmap.

Open Scope Z_scope.

(** ** Data frames *)

(** A value of a numeric column.  [None] is pandas' NaN, the filler for a
    field that is absent from a document or from a fragment. *)
Definition cell : Type := option Z.

(** [x.max(skipna=True)] on two values. *)
Definition cell_max2 (a b : cell) : cell :=
  match a, b with
  | Some x, Some y => Some (Z.max x y)
  | Some x, None => Some x
  | None, b => b
  end.

(** The reduction of one column of one group: NaN is skipped, a group
    with no number at all gives NaN. *)
Definition cell_max (vs : list cell) : cell := foldr cell_max2 None vs.

(** A path is the list of its components. *)
Definition path : Type := list string.

(** The exceptions that can escape from the script. *)
Inductive exn : Type :=
  | ParserError (text : string)   (* an index field that is no date *)
  | CsvError (p : path)           (* a document the reader cannot tokenize *)
  | OSError (p : path)
  | ValueError (msg : string)
  | KeyError (labels : list string)
  | TypeError.

Module pd.

(** The index holds instants as integers (nanoseconds, UTC); every row
    carries its fields in the order of [columns]. *)
Record DataFrame : Type := {
  index_name : option string;
  columns : list string;
  rows : list (Z * list cell)
}.

Definition index (df : DataFrame) : list Z := (rows df).*1.

(** The field of a row under a column label; NaN where the row has no
    such field. *)
Fixpoint get (cols : list string) (vs : list cell) (c : string) : cell :=
  match cols, vs with
  | c' :: cols', v :: vs' => if decide (c' = c) then v else get cols' vs' c
  | _, _ => None
  end.

(** [df.loc[t, c]] for a frame with one row per index value: the lookup
    fails for an unknown index value or an unknown column label. *)
Definition loc (df : DataFrame) (t : Z) (c : string) : option cell :=
  if decide (c ∈ columns df) then
    match list_find (λ r, r.1 = t) (rows df) with
    | Some (_, r) => Some (get (columns df) r.2 c)
    | None => None
    end
  else None.

(** [Index.union(other, sort=False)]: the labels in the order they are
    first met. *)
Definition union_index (acc new : list string) : list string :=
  acc ++ filter (λ c, c ∉ acc) new.

Definition combined_columns (dfs : list DataFrame) : list string :=
  foldl union_index [] (columns <$> dfs).

Definition combined_index_name (dfs : list DataFrame) : option string :=
  match dfs with
  | [] => None
  | df :: rest =>
      if decide (Forall (λ d, index_name d = index_name df) rest)
      then index_name df else None
  end.

Definition reindex_row (cols : list string) (df : DataFrame)
    (r : Z * list cell) : Z * list cell :=
  (r.1, get (columns df) r.2 <$> cols).

(** The types pandas gives a column of integers and NaN.  A column holds
    [int64] or [uint64] when all its fields are integers of that range,
    [float64] when it has a NaN or an integer of neither range and a
    float64 has each of its integers, and objects otherwise. *)
Inductive dtype : Type := int64 | uint64 | float64 | object.

#[global] Instance dtype_eq_dec : EqDecision dtype.
Proof. solve_decision. Defined.

(** An integer made a float64: the nearest number of 53 significant bits,
    the even one when two are as near. *)
Definition float64_of_int (z : Z) : Z :=
  let a := Z.abs z in
  if a <? 2 ^ 53 then z
  else
    let e := Z.log2 a - 52 in
    let q := a / 2 ^ e in
    let r := a mod 2 ^ e in
    let half := 2 ^ (e - 1) in
    let q' := if r <? half then q
              else if half <? r then q + 1
              else if Z.even q then q else q + 1 in
    Z.sgn z * (q' * 2 ^ e).

Definition holds (t : dtype) (v : cell) : bool :=
  match t, v with
  | int64, Some z => (- 2 ^ 63 <=? z) && (z <? 2 ^ 63)
  | uint64, Some z => (0 <=? z) && (z <? 2 ^ 64)
  | float64, Some z => (float64_of_int z =? z) && (Z.abs z <? 2 ^ 1024)
  | float64, None => true
  | object, _ => true
  | _, None => false
  end.

Definition dtype_of (vs : list cell) : dtype :=
  if forallb (holds int64) vs then int64
  else if forallb (holds uint64) vs then uint64
  else if forallb (holds float64) vs then float64
  else object.

(** [np.result_type]: the type that holds the values of both. *)
Definition result_type (a b : dtype) : dtype :=
  match a, b with
  | object, _ | _, object => object
  | int64, int64 => int64
  | uint64, uint64 => uint64
  | _, _ => float64
  end.

(** [values.astype(t)], from a type below [t]. *)
Definition astype (t : dtype) (v : cell) : cell :=
  match t with
  | float64 => float64_of_int <$> v
  | _ => v
  end.

(** The fields of a frame under a column label, and the type of this
    column; a frame without the label has NaN there, a frame without rows
    has no say. *)
Definition column_values (df : DataFrame) (c : string) : list cell :=
  (λ r, get (columns df) r.2 c) <$> rows df.

Definition column_dtype (df : DataFrame) (c : string) : option dtype :=
  match rows df with
  | [] => None
  | _ => Some (dtype_of (column_values df c))
  end.

Definition common_dtype (dfs : list DataFrame) (c : string) : option dtype :=
  foldr (λ df acc,
           union_with (λ a b, Some (result_type a b)) (column_dtype df c) acc)
        None dfs.

Definition convert (t : option dtype) (v : cell) : cell :=
  match t with
  | Some t => astype t v
  | None => v
  end.

Definition upcast_row (dfs : list DataFrame) (cols : list string)
    (r : Z * list cell) : Z * list cell :=
  (r.1, zip_with (λ c v, convert (common_dtype dfs c) v) cols r.2).

(** [pd.concat(dfs)]: the rows of all frames one after the other, the
    columns aligned by label (outer join) and every column brought to the
    type that holds its values in all frames.  An empty list is refused
    with [ValueError]. *)
Definition concat (dfs : list DataFrame) : option DataFrame :=
  match dfs with
  | [] => None
  | _ =>
      let cols := combined_columns dfs in
      Some {| index_name := combined_index_name dfs;
              columns := cols;
              rows := df ← dfs;
                      upcast_row dfs cols ∘ reindex_row cols df <$> rows df |}
  end.

Definition row_le (r1 r2 : Z * list cell) : Prop := r1.1 ≤ r2.1.

#[global] Instance row_le_dec : RelDecision row_le.
Proof. intros r1 r2. unfold row_le. apply _. Defined.

(** [df.sort_index(inplace=True)]. The order among rows of one index
    value is the sorting algorithm's; nothing below depends on it. *)
Definition sort_index (df : DataFrame) : DataFrame :=
  {| index_name := index_name df;
     columns := columns df;
     rows := merge_sort row_le (rows df) |}.

(** [df.index.rename(name, inplace=True)]. *)
Definition rename_index (name : string) (df : DataFrame) : DataFrame :=
  {| index_name := Some name; columns := columns df; rows := rows df |}.

(** The group keys of [df.groupby(df.index)]: the distinct index values,
    ascending. *)
Definition group_keys (df : DataFrame) : list Z :=
  merge_sort Z.le (remove_dups (index df)).

Definition group (df : DataFrame) (k : Z) : list (list cell) :=
  (filter (λ r, r.1 = k) (rows df)).*2.

Definition nth_cell (j : nat) (vs : list cell) : cell :=
  default None (vs !! j).

(** [df.groupby(df.index).max()]: one row per key, every column reduced
    on its own. *)
Definition groupby_index_max (df : DataFrame) : DataFrame :=
  {| index_name := index_name df;
     columns := columns df;
     rows := (λ k, (k, (λ j, cell_max (nth_cell j <$> group df k))
                         <$> seq 0 (length (columns df))))
             <$> group_keys df |}.

(** [df.reset_index()]: the index becomes the first column, under its
    name, and the rows are numbered.  A column of that name must not
    exist yet.  The instants are kept as their integer value. *)
Definition reset_index (df : DataFrame) : exn + DataFrame :=
  let name := default "index" (index_name df) in
  if decide (name ∈ columns df)
  then inl (ValueError ("cannot insert " +:+ name +:+ ", already exists"))
  else inr {| index_name := None;
              columns := name :: columns df;
              rows := imap (λ i r, (Z.of_nat i, Some r.1 :: r.2)) (rows df) |}.

(** [df.drop(columns=labels)]: every label must be a column. *)
Definition drop (labels : list string) (df : DataFrame) : exn + DataFrame :=
  match filter (λ c, c ∉ columns df) labels with
  | [] =>
      inr {| index_name := index_name df;
             columns := filter (λ c, c ∉ labels) (columns df);
             rows := (λ r, (r.1, (filter (λ cv, cv.1 ∉ labels)
                                    (zip (columns df) r.2)).*2))
                     <$> rows df |}
  | missing => inl (KeyError missing)
  end.

End pd.

Import pd.

(** ** The aggregation step of [main] *)

(** [dfa]: lines 87 to 91. *)
Definition dfa (dfs : list DataFrame) : option DataFrame :=
  rename_index "time" ∘ sort_index <$> concat dfs.

(** [df_agg]: line 106. *)
Definition df_agg (dfs : list DataFrame) : option DataFrame :=
  groupby_index_max <$> dfa dfs.

(** Two series with the same index, the same column labels and the same
    field at every instant and column. *)
Definition same_series (S S' : DataFrame) : Prop :=
  index S = index S'
  ∧ (∀ c, c ∈ columns S ↔ c ∈ columns S')
  ∧ ∀ t c, loc S t c = loc S' t c.

(** ** The file system *)

(** A directory tree.  A path is the list of its components below the
    working directory; the empty list is the empty path string and names
    nothing.  Every component is looked up as the name of an entry: the
    entries [.] and [..] and symbolic links are not part of this tree, so
    the properties that compare paths are stated for paths made of names
    ([names] below). *)
#[warnings="-register-all"]
Inductive node : Type :=
  | File (content : string)
  | Dir (entries : gmap string node).

Fixpoint resolve (n : node) (p : path) : option node :=
  match p with
  | [] => Some n
  | c :: p' =>
      match n with
      | Dir es => es !! c ≫= λ n', resolve n' p'
      | File _ => None
      end
  end.

Definition stat (root : node) (p : path) : option node :=
  match p with
  | [] => None
  | _ => resolve root p
  end.

(** Replace ([Some]) or remove ([None]) the entry a path names.  The parent
    must be an existing directory. *)
Fixpoint put (n : node) (p : path) (new : option node) : option node :=
  match p, n with
  | [], _ => None
  | _, File _ => None
  | [c], Dir es =>
      Some (Dir (match new with Some x => <[c:=x]> es | None => delete c es end))
  | c :: p', Dir es =>
      n' ← es !! c; n'' ← put n' p' new; Some (Dir (<[c:=n'']> es))
  end.

Fixpoint fresh_dirs (p : path) : node :=
  match p with
  | [] => Dir ∅
  | c :: p' => Dir {[c := fresh_dirs p']}
  end.

Module os.

Definition path_exists (root : node) (p : path) : bool :=
  bool_decide (is_Some (stat root p)).

Definition path_isdir (root : node) (p : path) : bool :=
  match stat root p with
  | Some (Dir _) => true
  | _ => false
  end.

Definition path_join (d : path) (name : string) : path := d ++ [name].

(** [os.makedirs(p)]: the missing directories on the way are created;
    the call fails when [p] exists already or leads through a file. *)
Fixpoint makedirs (n : node) (p : path) : option node :=
  match p, n with
  | [], _ => None
  | _, File _ => None
  | c :: p', Dir es =>
      match es !! c with
      | None => Some (Dir (<[c:=fresh_dirs p']> es))
      | Some n' => n'' ← makedirs n' p'; Some (Dir (<[c:=n'']> es))
      end
  end.

End os.

Module shutil.

(** [shutil.rmtree(p)]: [p] must name a directory. *)
Definition rmtree (root : node) (p : path) : option node :=
  if os.path_isdir root p then put root p None else None.

(** [shutil.copytree(src, dst)]: [src] must name a directory and [dst]
    nothing. *)
Definition copytree (root : node) (src dst : path) : option node :=
  match stat root src with
  | Some (Dir es) => root' ← os.makedirs root dst; put root' dst (Some (Dir es))
  | _ => None
  end.

End shutil.

(** [open(p, "wb")] followed by [write]. *)
Definition write_file (root : node) (p : path) (content : string) : option node :=
  if os.path_isdir root p then None else put root p (Some (File content)).

(** ** The run: state, exits and exceptions *)

(** An argument of a log record or of a command line. *)
Inductive arg : Type :=
  | AStr (s : string)
  | APath (p : path)
  | ANat (n : nat)
  | ASet (names : gset string)
  | AColumns (names : list string).

Inductive level : Type := INFO | ERROR.

(** How a piece of the script ends: it returns, it leaves through
    [sys.exit] (or the exit of argparse), or an exception escapes. *)
Inductive outcome (A : Type) : Type :=
  | Return (a : A)
  | Exit (code : Z)
  | Raise (e : exn).
Arguments Return {A} a.
Arguments Exit {A} code.
Arguments Raise {A} e.

(** The exit status of the interpreter. *)
Definition exit_status {A} (o : outcome A) : Z :=
  match o with
  | Return _ => 0
  | Exit code => code
  | Raise _ => 1
  end.

Record world : Type := {
  fs : node;
  OUTDIR : option path;
  log : list (level * string * list arg);
  stdout : list DataFrame
}.

Definition M (A : Type) : Type := world → outcome A * world.

#[global] Instance M_ret : MRet M := λ A a w, (Return a, w).
#[global] Instance M_bind : MBind M := λ A B f m w,
  match m w with
  | (Return a, w') => f a w'
  | (Exit code, w') => (Exit code, w')
  | (Raise e, w') => (Raise e, w')
  end.

Definition sys_exit {A} (code : Z) : M A := λ w, (Exit code, w).
Definition raise {A} (e : exn) : M A := λ w, (Raise e, w).

Definition log_record (l : level) (fmt : string) (args : list arg) : M unit :=
  λ w, (Return (),
        {| fs := fs w; OUTDIR := OUTDIR w;
           log := log w ++ [(l, fmt, args)]; stdout := stdout w |}).
Definition log_info := log_record INFO.
Definition log_error := log_record ERROR.

Definition print (df : DataFrame) : M unit :=
  λ w, (Return (),
        {| fs := fs w; OUTDIR := OUTDIR w;
           log := log w; stdout := stdout w ++ [df] |}).

Definition set_OUTDIR (d : path) : M unit :=
  λ w, (Return (),
        {| fs := fs w; OUTDIR := Some d; log := log w; stdout := stdout w |}).

Definition get_OUTDIR : M path :=
  λ w, match OUTDIR w with
       | Some d => (Return d, w)
       | None => (Raise TypeError, w)
       end.

(** A step on the file system; a failed call raises [OSError]. *)
Definition fs_step (p : path) (f : node → option node) : M unit :=
  λ w, match f (fs w) with
       | Some root => (Return (),
                       {| fs := root; OUTDIR := OUTDIR w;
                          log := log w; stdout := stdout w |})
       | None => (Raise (OSError p), w)
       end.

Definition fs_test (f : node → bool) : M bool := λ w, (Return (f (fs w)), w).

Definition lift {A} (r : exn + A) : M A :=
  λ w, match r with
       | inl e => (Raise e, w)
       | inr a => (Return a, w)
       end.

Fixpoint for_each {A} (f : A → M unit) (l : list A) : M unit :=
  match l with
  | [] => mret ()
  | a :: l' => _ ← f a; for_each f l'
  end.

(** ** The script *)

(** The values argparse takes from a command line: the positional
    arguments and the three options, each present or not. *)
Record argv : Type := {
  arg_csvpath : list path;
  arg_pandoc_command : option string;
  arg_resources_directory : option path;
  arg_output_directory : option path
}.

Record Namespace : Type := {
  csvpath : list path;
  pandoc_command : string;
  resources_directory : path;
  output_directory : path
}.

(** ** The command line *)

(** Operations of Python on strings. *)
Module Str.

Fixpoint startswith (s p : string) : bool :=
  match p, s with
  | EmptyString, _ => true
  | String a p', String b s' => Ascii.eqb a b && startswith s' p'
  | String _ _, EmptyString => false
  end.

Fixpoint contains (a : ascii) (s : string) : bool :=
  match s with
  | EmptyString => false
  | String b s' => Ascii.eqb a b || contains a s'
  end.

(** [s.split(sep, 1)] for a string that has the separator, and [s.split(sep)]. *)
Fixpoint split1 (sep : ascii) (s : string) : option (string * string) :=
  match s with
  | EmptyString => None
  | String b s' =>
      if Ascii.eqb sep b then Some (EmptyString, s')
      else prod_map (String b) id <$> split1 sep s'
  end.

Fixpoint split (sep : ascii) (s : string) : list string :=
  match s with
  | EmptyString => [EmptyString]
  | String b s' =>
      if Ascii.eqb sep b then EmptyString :: split sep s'
      else match split sep s' with
           | w :: ws => String b w :: ws
           | [] => [String b EmptyString]
           end
  end.

Definition is_digit (a : ascii) : bool :=
  (48 <=? nat_of_ascii a)%nat && (nat_of_ascii a <=? 57)%nat.

Fixpoint digits (s : string) : bool :=
  match s with
  | EmptyString => true
  | String a s' => is_digit a && digits s'
  end.

(** [\d*\.\d+] *)
Fixpoint fraction (s : string) : bool :=
  match s with
  | EmptyString => false
  | String a s' =>
      if Ascii.eqb a "." then
        match s' with EmptyString => false | _ => digits s' end
      else is_digit a && fraction s'
  end.

(** A string of ASCII characters. *)
Fixpoint is_ascii (s : string) : bool :=
  match s with
  | EmptyString => true
  | String a s' => (nat_of_ascii a <? 128)%nat && is_ascii s'
  end.

(** The string without a newline at its end, for [$]. *)
Fixpoint chomp (s : string) : string :=
  match s with
  | EmptyString => EmptyString
  | String a EmptyString => if Ascii.eqb a "010" then EmptyString else s
  | String a s' => String a (chomp s')
  end.

End Str.

(** The parser of lines 261 to 265, after [argparse.py] of Python 3.11:
    the positional argument [csvpath] with [nargs="+"], the three options
    that take one value, and [-h] and [--help].  What it writes (the help,
    the usage message of an error) is left out. *)
Module argparse.

Inductive dest : Type :=
  | dest_pandoc_command | dest_resources_directory | dest_output_directory.

Inductive action : Type := help | store (d : dest).

(** [parser._option_string_actions], in the order of lines 261 to 265. *)
Definition option_string_actions : list (string * action) :=
  [("-h", help); ("--help", help);
   ("--pandoc-command", store dest_pandoc_command);
   ("--resources-directory", store dest_resources_directory);
   ("--output-directory", store dest_output_directory)].

Definition option_action (s : string) : option action :=
  snd <$> list_find (λ oa, oa.1 = s) option_string_actions ≫= λ x, Some x.2.

(** [^-\d+$|^-\d*\.\d+$] *)
Definition negative_number (s : string) : bool :=
  match Str.chomp s with
  | String "-" n =>
      (match n with EmptyString => false | _ => Str.digits n end)
      || Str.fraction n
  | _ => false
  end.

(** What [_parse_optional] makes of an argument: a positional argument, an
    option (an unknown one has no action), or an abbreviation of several
    options. *)
Inductive parsed : Type :=
  | Positional
  | Ambiguous
  | Optional (a : option action) (option_string : string)
             (explicit_arg : option string).

Definition option_tuples (arg : string) : list parsed :=
  match arg with
  | String "-" (String "-" _) =>
      let '(option_prefix, explicit_arg) :=
        match Str.split1 "=" arg with
        | Some (o, e) => (o, Some e)
        | None => (arg, None)
        end in
      (λ oa, Optional (Some oa.2) oa.1 explicit_arg)
        <$> filter (λ oa, Str.startswith oa.1 option_prefix = true)
              option_string_actions
  | String "-" (String c rest) =>
      omap (λ oa, if decide (oa.1 = String "-" (String c EmptyString))
                  then Some (Optional (Some oa.2) oa.1 (Some rest))
                  else if Str.startswith oa.1 arg
                       then Some (Optional (Some oa.2) oa.1 None)
                       else None)
        option_string_actions
  | _ => []
  end.

Definition parse_optional (arg : string) : parsed :=
  match arg with
  | String "-" rest =>
      match option_action arg with
      | Some a => Optional (Some a) arg None
      | None =>
          match rest with
          | EmptyString => Positional
          | _ =>
              match Str.split1 "=" arg ≫= λ oe,
                    option_action oe.1 ≫= λ a,
                    Some (Optional (Some a) oe.1 (Some oe.2)) with
              | Some t => t
              | None =>
                  match option_tuples arg with
                  | _ :: _ :: _ => Ambiguous
                  | [t] => t
                  | [] =>
                      if negative_number arg then Positional
                      else if Str.contains " " arg then Positional
                      else Optional None arg None
                  end
              end
          end
      end
  | _ => Positional
  end.

Record values : Type := {
  positionals : option (list string);
  opt_pandoc_command : option string;
  opt_resources_directory : option string;
  opt_output_directory : option string;
  extras : bool
}.

Definition no_values : values :=
  {| positionals := None; opt_pandoc_command := None;
     opt_resources_directory := None; opt_output_directory := None;
     extras := false |}.

Definition set_dest (d : dest) (v : string) (vs : values) : values :=
  match d with
  | dest_pandoc_command =>
      {| positionals := positionals vs; opt_pandoc_command := Some v;
         opt_resources_directory := opt_resources_directory vs;
         opt_output_directory := opt_output_directory vs; extras := extras vs |}
  | dest_resources_directory =>
      {| positionals := positionals vs;
         opt_pandoc_command := opt_pandoc_command vs;
         opt_resources_directory := Some v;
         opt_output_directory := opt_output_directory vs; extras := extras vs |}
  | dest_output_directory =>
      {| positionals := positionals vs;
         opt_pandoc_command := opt_pandoc_command vs;
         opt_resources_directory := opt_resources_directory vs;
         opt_output_directory := Some v; extras := extras vs |}
  end.

Definition set_extras (vs : values) : values :=
  {| positionals := positionals vs;
     opt_pandoc_command := opt_pandoc_command vs;
     opt_resources_directory := opt_resources_directory vs;
     opt_output_directory := opt_output_directory vs; extras := true |}.

Fixpoint remove_first (x : string) (l : list string) : list string :=
  match l with
  | [] => []
  | y :: l' => if decide (y = x) then l' else y :: remove_first x l'
  end.

(** A stretch of arguments that are no options: [csvpath] takes all of
    it, once, when it has an argument besides [--]; otherwise the
    arguments are left over. *)
Definition take_positionals (run : list string) (vs : values) : values :=
  match run with
  | [] => vs
  | _ =>
      match positionals vs with
      | None =>
          match remove_first "--" run with
          | [] => set_extras vs
          | ps =>
              {| positionals := Some ps;
                 opt_pandoc_command := opt_pandoc_command vs;
                 opt_resources_directory := opt_resources_directory vs;
                 opt_output_directory := opt_output_directory vs;
                 extras := extras vs |}
          end
      | Some _ => set_extras vs
      end
  end.

Inductive result : Type :=
  | Parsed (av : argv)
  | Help
  | Error.

(** The letters after [-h] in one argument: each must be an option
    without a value again. *)
Fixpoint short_options (explicit_arg : string) : result :=
  match explicit_arg with
  | EmptyString => Help
  | String c rest =>
      match option_action (String "-" (String c EmptyString)) with
      | Some help => short_options rest
      | _ => Error
      end
  end.

(** An option without a value that is given one in its argument:
    [--help=x] is an error, and the letters after [-h] are read as
    options. *)
Definition option_without_value (option_string explicit_arg : string) : result :=
  if Str.startswith option_string "--" then Error
  else
    match explicit_arg with
    | EmptyString => Error
    | _ => short_options explicit_arg
    end.

(** The components of a path string; the empty string has none. *)
Definition split_path (s : string) : path :=
  match s with
  | EmptyString => []
  | _ => Str.split "/" s
  end.

Definition finish (vs : values) : result :=
  match positionals vs with
  | None => Error
  | Some ps =>
      if extras vs then Error
      else Parsed {| arg_csvpath := split_path <$> ps;
                     arg_pandoc_command := opt_pandoc_command vs;
                     arg_resources_directory :=
                       split_path <$> opt_resources_directory vs;
                     arg_output_directory :=
                       split_path <$> opt_output_directory vs |}
  end.

(** The arguments from left to right; [run] is the stretch of arguments
    that are no options met since the last option, and after [--] no
    argument is an option. *)
Fixpoint consume (args : list string) (run : list string) (dashes : bool)
    (vs : values) : result :=
  match args with
  | [] => finish (take_positionals run vs)
  | arg :: args' =>
      if dashes then consume args' (run ++ [arg]) true vs
      else if decide (arg = "--") then consume args' (run ++ [arg]) true vs
      else
        match parse_optional arg with
        | Positional => consume args' (run ++ [arg]) false vs
        | Ambiguous => Error
        | Optional a option_string explicit_arg =>
            let vs := take_positionals run vs in
            match a, explicit_arg with
            | None, _ => consume args' [] false (set_extras vs)
            | Some help, None => Help
            | Some help, Some e => option_without_value option_string e
            | Some (store d), Some e => consume args' [] false (set_dest d e vs)
            | Some (store d), None =>
                match args' with
                | v :: args'' =>
                    if decide (v = "--") then Error
                    else
                      match parse_optional v with
                      | Positional => consume args'' [] false (set_dest d v vs)
                      | _ => Error
                      end
                | [] => Error
                end
            end
        end
  end.

Fixpoint has_ambiguous (args : list string) : bool :=
  match args with
  | [] => false
  | arg :: args' =>
      if decide (arg = "--") then false
      else match parse_optional arg with
           | Ambiguous => true
           | _ => has_ambiguous args'
           end
  end.

(** [parser.parse_args()] on [sys.argv[1:]]. *)
Definition parse_args (args : list string) : result :=
  if has_ambiguous args then Error else consume args [] false no_values.

End argparse.

(** A CSV document after tokenizing: the labels of the header other than
    [time_iso8601], and for every record the text of its [time_iso8601]
    field and the integers its other fields are read as ([None] for an
    empty one). *)
Record document : Type := {
  header : list string;
  records : list (string * list cell)
}.

Section script.

(** The date of the run, [TODAY], and the text of the report, which
    depends on [NOW] only. *)
Variable TODAY : string.
Variable report_md_text : string.

(** What lies outside the script: the tokenizer of [pd.read_csv], the
    parser behind [pd.to_datetime(_, utc=True)] for one field, the
    rendering of the four charts by Altair, and the run of a command.  A
    field either is a date, and then stands for an instant, or is none;
    records without a [time_iso8601] field are not part of this model. *)
Variable tokenize : string → option document.
Variable to_datetime : string → option Z.
Variable chart_html : DataFrame → DataFrame → string.
Variable subprocess_run : list arg → node → option (node * Z).

(** The [date_parser] handed to [pd.read_csv]: the whole column is
    converted, the first field that is no date raises. *)
Fixpoint date_parser (col : list string) : exn + list Z :=
  match col with
  | [] => inr []
  | s :: col' =>
      match to_datetime s with
      | None => inl (ParserError s)
      | Some t =>
          match date_parser col' with
          | inl e => inl e
          | inr ts => inr (t :: ts)
          end
      end
  end.

(** [pd.read_csv(p, index_col=["time_iso8601"], date_parser=...)]. *)
Definition read_csv (p : path) : M DataFrame :=
  λ w, match stat (fs w) p with
       | Some (File text) =>
           match tokenize text with
           | Some doc =>
               match date_parser (records doc).*1 with
               | inr ts =>
                   (Return {| index_name := Some "time_iso8601";
                              columns := header doc;
                              rows := zip ts (records doc).*2 |}, w)
               | inl e => (Raise e, w)
               end
           | None => (Raise (CsvError p), w)
           end
       | _ => (Raise (OSError p), w)
       end.

(** What [parser.parse_args()] returns when it returns: the options
    that are absent take their defaults. *)
Definition namespace (av : argv) : Namespace :=
  {| csvpath := arg_csvpath av;
     pandoc_command := default "pandoc" (arg_pandoc_command av);
     resources_directory :=
       default ["resources"] (arg_resources_directory av);
     output_directory :=
       default [TODAY +:+ "_report"] (arg_output_directory av) |}.

(** [parse_args], lines 259 to 284, on the values argparse takes from
    the command line ([argparse.parse_args] is applied in [program]
    below).  argparse leaves with status 2 when no [csvpath] is given
    ([nargs="+"]). *)
Definition parse_args (av : argv) : M Namespace :=
  match arg_csvpath av with
  | [] => sys_exit 2
  | _ =>
      let args := namespace av in
      let d := output_directory args in
      ex ← fs_test (λ root, os.path_exists root d);
      _ ← (if ex : bool then
             isd ← fs_test (λ root, os.path_isdir root d);
             if isd : bool then
               _ ← log_info "Remove output directory: %s" [APath d];
               fs_step d (λ root, shutil.rmtree root d)
             else
               _ ← log_error
                     "The specified output directory path does not point to a directory: %s"
                     [APath d];
               sys_exit 1
           else mret ());
      _ ← log_info "Create output directory: %s" [APath d];
      _ ← fs_step d (λ root, os.makedirs root d);
      _ ← set_OUTDIR d;
      mret args
  end.

(** A document at [p] with a [time_iso8601] field [s] that is no date. *)
Definition unparseable (root : node) (p : path) (s : string) : Prop :=
  ∃ text doc, stat root p = Some (File text) ∧ tokenize text = Some doc
              ∧ s ∈ (records doc).*1 ∧ to_datetime s = None.

(** The loop of lines 65 to 79, with its two variables [dfs] and
    [column_names_seen]. *)
Fixpoint read_fragments (ps : list path) (dfs : list DataFrame)
    (column_names_seen : gset string) : M (list DataFrame) :=
  match ps with
  | [] => mret dfs
  | p :: ps' =>
      _ ← log_info "attempt to parse %s" [APath p];
      df ← read_csv p;
      if decide (column_names_seen ≠ ∅
                 ∧ list_to_set (columns df) ≠ column_names_seen)
      then
        _ ← log_error "columns seen so far: %s" [ASet column_names_seen];
        _ ← log_error "columns in %s: %s" [APath p; AColumns (columns df)];
        sys_exit 1
      else
        read_fragments ps' (dfs ++ [df])
          (column_names_seen ∪ list_to_set (columns df))
  end.

(** Lines 60 to 79. *)
Definition load (args : Namespace) : M (list DataFrame) :=
  _ ← log_info "read views/clones time series fragments (CSV docs)" [];
  _ ← log_info "number of csv files provided: %s"
        [ANat (length (csvpath args))];
  read_fragments (csvpath args) [] ∅.

(** Lines 81 to 107: the fragments are printed, then merged. *)
Definition aggregate (dfs : list DataFrame) : M DataFrame :=
  _ ← for_each print dfs;
  _ ← log_info "total sample count: %s"
        [ANat (sum_list ((λ df, length (rows df)) <$> dfs))];
  _ ← log_info "build aggregate, drop duplicate data" [];
  match dfa dfs, df_agg dfs with
  | Some a, Some agg => _ ← print a; _ ← print agg; mret agg
  | _, _ => raise (ValueError "No objects to concatenate")
  end.

(** [subprocess.run(cmd).returncode]. *)
Definition run (cmd : list arg) : M Z :=
  λ w, match subprocess_run cmd (fs w) with
       | Some (root, returncode) =>
           (Return returncode,
            {| fs := root; OUTDIR := OUTDIR w;
               log := log w; stdout := stdout w |})
       | None => (Raise (OSError []), w)
       end.

(** Lines 135 to 256: the two views of the aggregate, the charts, the
    report and the run of Pandoc.  The two stray lines 228 and 229 of the
    source, the remains of a call, are left out. *)
Definition report (args : Namespace) (agg : DataFrame) : M unit :=
  df_agg' ← lift (reset_index agg);
  df_agg_views ← lift (drop ["clones_unique"; "clones_total"] df_agg');
  df_agg_clones ← lift (drop ["views_unique"; "views_total"] df_agg');
  _ ← fs_step ["chart.html"] (λ root,
        write_file root ["chart.html"] (chart_html df_agg_clones df_agg_views));
  outdir ← get_OUTDIR;
  let md_report_filepath := os.path_join outdir (TODAY +:+ "_report.md") in
  _ ← log_info "Write generated Markdown report to: %s"
        [APath md_report_filepath];
  _ ← fs_step md_report_filepath (λ root,
        write_file root md_report_filepath report_md_text);
  _ ← log_info "Copy resources directory into output directory" [];
  _ ← fs_step (resources_directory args) (λ root,
        shutil.copytree root (resources_directory args)
          (os.path_join outdir "resources"));
  let html_report_filepath :=
    os.path_join outdir (TODAY +:+ "_report" +:+ ".html") in
  _ ← log_info "Trying to run Pandoc for generating HTML document" [];
  let pandoc_cmd :=
    [AStr (pandoc_command args); AStr "--toc"; AStr "--standalone";
     AStr "--template=resources/template.html"; APath md_report_filepath;
     AStr "-o"; APath html_report_filepath] in
  _ ← log_info "Running command: %s" pandoc_cmd;
  returncode ← run pandoc_cmd;
  if decide (returncode = 0)
  then log_info "Pandoc terminated indicating success" []
  else log_info "Pandoc terminated indicating error" [].

Definition main (av : argv) : M unit :=
  args ← parse_args av;
  dfs ← load args;
  agg ← aggregate dfs;
  report args agg.

(** The script run as a program, lines 299 and 300, on the arguments
    [sys.argv[1:]]: [parser.parse_args()] ends the run with the status 0
    after [-h], with the status 2 on a command line it rejects, and
    otherwise hands its values to the rest of [main]. *)
Definition program (sys_argv : list string) : M unit :=
  match argparse.parse_args sys_argv with
  | argparse.Parsed av => main av
  | argparse.Help => sys_exit 0
  | argparse.Error => sys_exit 2
  end.

End script.

(** The four names the report is written for (lines 137 and 138). *)
Definition hardcoded_columns : list string :=
  ["clones_unique"; "clones_total"; "views_unique"; "views_total"].

(** ** Notions the properties are stated with *)

(** The index values of all fragments, and all values reported for one
    instant and one column, in the order of the fragments and their rows.
    A fragment without the column reports NaN. *)
Definition timestamps (dfs : list DataFrame) : list Z :=
  df ← dfs; index df.

Definition observations (dfs : list DataFrame) (t : Z) (c : string) : list cell :=
  df ← dfs; (λ r, get (columns df) r.2 c) <$> filter (λ r, r.1 = t) (rows df).

(** The same values as [dfa] holds them: in the type of the column. *)
Definition converted (dfs : list DataFrame) (t : Z) (c : string) : list cell :=
  convert (common_dtype dfs c) <$> observations dfs t c.

(** A value every numeric type holds as it is, and fragments that have
    such values only. *)
Definition exact (v : cell) : Prop :=
  match v with
  | Some z => - 2 ^ 53 ≤ z ≤ 2 ^ 53
  | None => True
  end.

Definition exact_values (dfs : list DataFrame) : Prop :=
  Forall (λ df, Forall (λ r, Forall exact r.2) (rows df)) dfs.

(** The test of line 73 on fragments that are loaded already. *)
Fixpoint schema_guard (column_names_seen : gset string)
    (dfs : list DataFrame) : bool :=
  match dfs with
  | [] => true
  | df :: dfs' =>
      if decide (column_names_seen ≠ ∅
                 ∧ list_to_set (columns df) ≠ column_names_seen)
      then false
      else schema_guard (column_names_seen ∪ list_to_set (columns df)) dfs'
  end.

(** A component of a path that is the name of an entry: not empty, not
    [.] or [..], and without a slash; and a path made of names.  On such
    paths the tree above resolves a path as the system does. *)
Definition is_name (c : string) : bool :=
  negb (bool_decide (c = "")) && negb (bool_decide (c = "."))
  && negb (bool_decide (c = "..")) && negb (Str.contains "/" c).

Definition names (p : path) : Prop := Forall (λ c, is_name c = true) p.

(** A piece of the script that never leaves through [sys.exit]. *)
Definition no_exit {A} (m : M A) : Prop :=
  ∀ w code w', m w ≠ (Exit code, w').

(** Two ends of a piece of the script that differ in the log at most. *)
Definition same_but_log {A} (r r' : outcome A * world) : Prop :=
  r.1 = r'.1 ∧ fs r.2 = fs r'.2 ∧ OUTDIR r.2 = OUTDIR r'.2
  ∧ stdout r.2 = stdout r'.2.

(** The same fragment with its rows in another order, and the same
    fragments in another order. *)
Definition rows_permuted (d d' : DataFrame) : Prop :=
  index_name d = index_name d' ∧ columns d = columns d' ∧ rows d ≡ₚ rows d'.

Definition fragments_permuted (dfs dfs' : list DataFrame) : Prop :=
  ∃ mid, Forall2 rows_permuted dfs mid ∧ mid ≡ₚ dfs'.

Definition day (d : Z) : Z := d * 86400000000000.

Definition fragA : DataFrame :=
  {| index_name := Some "time_iso8601"; columns := ["clones_total"];
     rows := [(day 18597, [Some 10]); (day 18603, [Some 73])] |}.
Definition fragB : DataFrame :=
  {| index_name := Some "time_iso8601"; columns := ["clones_total"];
     rows := [(day 18601, [Some 4]); (day 18603, [Some 18])] |}.

(** Two fragments for one day: a small count, and one beyond [int64]. *)
Definition five : DataFrame :=
  {| index_name := Some "time_iso8601"; columns := ["clones_total"];
     rows := [(day 18603, [Some 5])] |}.
Definition u64 : DataFrame :=
  {| index_name := Some "time_iso8601"; columns := ["clones_total"];
     rows := [(day 18603, [Some 9223372036854775809])] |}.


(** ** A run to try the script on *)

Module demo.

Definition TODAY : string := "2020-12-21".
Definition report_md_text : string := "% Repository statistics".

Definition full_header : list string :=
  ["clones_unique"; "clones_total"; "views_unique"; "views_total"].

(** Three documents with the four columns of the traffic API, one with
    a single column, one with none, and one whose second record has no
    date. *)
Definition doc_dec15 : document :=
  {| header := full_header;
     records := [("2020-12-01", [Some 3; Some 10; Some 5; Some 12]);
                 ("2020-12-07", [Some 9; Some 73; Some 4; Some 8])] |}.
Definition doc_dec21 : document :=
  {| header := full_header;
     records := [("2020-12-05", [Some 2; Some 4; Some 1; Some 1]);
                 ("2020-12-07", [Some 6; Some 18; Some 4; Some 9])] |}.
Definition doc_clones : document :=
  {| header := ["clones_total"];
     records := [("2020-12-01", [Some 10]); ("2020-12-07", [Some 73])] |}.
Definition doc_bare : document :=
  {| header := []; records := [("2020-12-05", [])] |}.
Definition doc_broken : document :=
  {| header := full_header;
     records := [("2020-12-05", [Some 2; Some 4; Some 1; Some 1]);
                 ("yesterday", [Some 6; Some 18; Some 4; Some 9])] |}.

(** A reader that knows these documents by their text. *)
Definition tokenize (text : string) : option document :=
  if decide (text = "dec15") then Some doc_dec15
  else if decide (text = "dec21") then Some doc_dec21
  else if decide (text = "clones") then Some doc_clones
  else if decide (text = "bare") then Some doc_bare
  else if decide (text = "broken") then Some doc_broken
  else None.

Definition to_datetime (s : string) : option Z :=
  if decide (s = "2020-12-01") then Some (86400000000000 * 18597)
  else if decide (s = "2020-12-05") then Some (86400000000000 * 18601)
  else if decide (s = "2020-12-07") then Some (86400000000000 * 18603)
  else None.

Definition chart_html (clones views : DataFrame) : string := "<html>".

Definition subprocess_run (cmd : list arg) (root : node) : option (node * Z) :=
  Some (root, 0).

(** The working directory: the documents, the resources, and the output
    directory of an earlier run with its report. *)
Definition root : node :=
  Dir (list_to_map
    [("dec15.csv", File "dec15"); ("dec21.csv", File "dec21");
     ("clones.csv", File "clones"); ("bare.csv", File "bare");
     ("broken.csv", File "broken");
     ("resources", Dir (list_to_map [("template.html", File "<html>")]));
     ("out", Dir (list_to_map [("2020-12-20_report.md", File "% old")]))]).

Definition w0 : world :=
  {| fs := root; OUTDIR := None; log := []; stdout := [] |}.

Definition argv_of (ps : list path) : argv :=
  {| arg_csvpath := ps; arg_pandoc_command := None;
     arg_resources_directory := None;
     arg_output_directory := Some ["out"] |}.

(** What the reader makes of [bare.csv] and of [dec15.csv]. *)
Definition df_bare : DataFrame :=
  {| index_name := Some "time_iso8601"; columns := [];
     rows := [(86400000000000 * 18601, [])] |}.
Definition df_dec15 : DataFrame :=
  {| index_name := Some "time_iso8601"; columns := full_header;
     rows := [(86400000000000 * 18597, [Some 3; Some 10; Some 5; Some 12]);
              (86400000000000 * 18603, [Some 9; Some 73; Some 4; Some 8])] |}.

(** Two sources of which the second has a field that is no date; a source
    without columns followed by one with the four columns; a source with
    one column. *)
Definition av_broken : argv := argv_of [["dec15.csv"]; ["broken.csv"]].
Definition av_bare : argv := argv_of [["bare.csv"]; ["dec15.csv"]].
Definition av_clones : argv := argv_of [["clones.csv"]].

Definition main : argv → M unit :=
  main TODAY report_md_text tokenize to_datetime chart_html subprocess_run.
Definition parse_args : argv → M Namespace := parse_args TODAY.
Definition load : Namespace → M (list DataFrame) := load tokenize to_datetime.
Definition program : list string → M unit :=
  program TODAY report_md_text tokenize to_datetime chart_html subprocess_run.

(** What the reader makes of [dec21.csv]; further command lines: two sources
    that agree, a source whose columns differ from the first, an output
    path that names a file, one that names nothing yet, a source that does
    not exist and a source inside the output directory; and a Pandoc that
    fails. *)
Definition df_dec21 : DataFrame :=
  {| index_name := Some "time_iso8601"; columns := full_header;
     rows := [(86400000000000 * 18601, [Some 2; Some 4; Some 1; Some 1]);
              (86400000000000 * 18603, [Some 6; Some 18; Some 4; Some 9])] |}.

Definition av_ok : argv := argv_of [["dec15.csv"]; ["dec21.csv"]].
Definition av_mismatch : argv :=
  argv_of [["dec15.csv"]; ["clones.csv"]; ["dec21.csv"]].
Definition av_file_out : argv :=
  {| arg_csvpath := [["dec21.csv"]]; arg_pandoc_command := None;
     arg_resources_directory := None;
     arg_output_directory := Some ["dec15.csv"] |}.
Definition av_new_out : argv :=
  {| arg_csvpath := [["dec21.csv"]]; arg_pandoc_command := None;
     arg_resources_directory := None;
     arg_output_directory := Some ["reports"; "today"] |}.
Definition av_missing : argv := argv_of [["missing.csv"]; ["dec15.csv"]].
Definition av_inside : argv :=
  argv_of [["dec15.csv"]; ["out"; "2020-12-20_report.md"]].

Definition failing_pandoc (cmd : list arg) (root : node) : option (node * Z) :=
  Some (root, 1).

(** The aggregate of [dec15.csv] and [dec21.csv], and the three frames the
    report makes of it. *)
Definition agg_ok : DataFrame :=
  Eval vm_compute in default df_bare (df_agg [df_dec15; df_dec21]).
Definition frame_of (r : exn + DataFrame) : DataFrame :=
  match r with inr df => df | inl _ => df_bare end.
Definition tbl_ok : DataFrame :=
  Eval vm_compute in frame_of (reset_index agg_ok).
Definition views_ok : DataFrame :=
  Eval vm_compute in frame_of (drop ["clones_unique"; "clones_total"] tbl_ok).
Definition clones_ok : DataFrame :=
  Eval vm_compute in frame_of (drop ["views_unique"; "views_total"] tbl_ok).

End demo.

(** A fragment with one instant twice. *)
Definition fragC : DataFrame :=
  {| index_name := Some "time_iso8601"; columns := ["clones_total"];
     rows := [(day 18603, [Some 5]); (day 18603, [Some 9])] |}.

(** The same two fragments, each with its rows the other way round. *)
Definition fragA_reversed : DataFrame :=
  {| index_name := Some "time_iso8601"; columns := ["clones_total"];
     rows := [(day 18603, [Some 73]); (day 18597, [Some 10])] |}.
Definition fragB_reversed : DataFrame :=
  {| index_name := Some "time_iso8601"; columns := ["clones_total"];
     rows := [(day 18603, [Some 18]); (day 18601, [Some 4])] |}.

(** * Properties *)

(** ** The reduction of a column *)

Lemma cell_max2_comm a b : cell_max2 a b = cell_max2 b a.
Proof. destruct a, b; simpl; f_equal; lia. Qed.

Lemma cell_max2_assoc a b c :
  cell_max2 a (cell_max2 b c) = cell_max2 (cell_max2 a b) c.
Proof. destruct a, b, c; simpl; f_equal; lia. Qed.

Lemma cell_max_perm l l' : l ≡ₚ l' → cell_max l = cell_max l'.
Proof.
  intros Hp. unfold cell_max.
  apply (foldr_permutation (=) cell_max2 None); [|done].
  intros j1 a1 j2 a2 b _ _ _.
  by rewrite !cell_max2_assoc, (cell_max2_comm a1 a2).
Qed.

Lemma cell_max_upper l v :
  Some v ∈ l → ∃ m, cell_max l = Some m ∧ v ≤ m.
Proof.
  induction l as [|a l IH]; intros Hin; [by apply elem_of_nil in Hin|].
  apply elem_of_cons in Hin as [<-|Hin]; simpl.
  - destruct (cell_max l) as [m|]; simpl; eexists; split; eauto; lia.
  - destruct (IH Hin) as (m & -> & Hle).
    destruct a as [x|]; simpl; eexists; split; eauto; lia.
Qed.

Lemma cell_max_attained l m : cell_max l = Some m → Some m ∈ l.
Proof.
  revert m. induction l as [|a l IH]; simpl; intros m; [done|].
  destruct a as [x|], (cell_max l) as [y|] eqn:E; simpl; intros [= <-].
  - destruct (Z.max_spec x y) as [[_ ->]|[_ ->]].
    + right. by apply IH.
    + left.
  - left.
  - right. by apply IH.
Qed.

Lemma cell_max_singleton v : cell_max [v] = v.
Proof. by destruct v. Qed.

(** ** The types of the columns *)

Lemma float64_of_int_exact z : - 2 ^ 53 ≤ z ≤ 2 ^ 53 → float64_of_int z = z.
Proof.
  intros Hz. unfold float64_of_int.
  destruct (Z.abs z <? 2 ^ 53) eqn:E; [done|].
  apply Z.ltb_ge in E.
  assert (z = 2 ^ 53 ∨ z = - 2 ^ 53) as [-> | ->] by lia; vm_compute; done.
Qed.

Example float64_of_int_rounds :
  float64_of_int 9007199254740993 = 9007199254740992
  ∧ float64_of_int 9007199254740995 = 9007199254740996
  ∧ float64_of_int 9223372036854775809 = 9223372036854775808
  ∧ float64_of_int (-9223372036854775809) = -9223372036854775808
  ∧ float64_of_int 18446744073709551615 = 18446744073709551616.
Proof. repeat split; vm_compute; reflexivity. Qed.

(** The type of a column: of the fragments [five] and [u64], of their
    column in [dfa], and of a column beside a fragment that lacks it. *)
Example column_types :
  column_dtype five "clones_total" = Some int64
  ∧ column_dtype u64 "clones_total" = Some uint64
  ∧ common_dtype [five; u64] "clones_total" = Some float64
  ∧ common_dtype [five; fragA] "clones_total" = Some int64
  ∧ common_dtype [demo.df_bare; five] "clones_total" = Some float64.
Proof. repeat split; vm_compute; reflexivity. Qed.

Lemma convert_exact t v : exact v → convert t v = v.
Proof.
  destruct t as [[]|], v as [z|]; try done.
  intros Hz. cbn. f_equal. by apply float64_of_int_exact.
Qed.

Lemma get_elem_of cols (vs : list cell) c :
  get cols vs c = None ∨ get cols vs c ∈ vs.
Proof.
  revert vs. induction cols as [|c' cols IH]; intros [|v vs]; try by left.
  cbn [get]. destruct (decide (c' = c)); [right; left|].
  destruct (IH vs) as [?|?]; [by left|right; by right].
Qed.

Lemma observations_exact dfs t c :
  exact_values dfs → Forall exact (observations dfs t c).
Proof.
  unfold exact_values, observations. rewrite !Forall_forall.
  intros Hall v (df & Hv & Hdf)%list_elem_of_bind.
  apply list_elem_of_fmap in Hv as (r & -> & Hr).
  apply list_elem_of_filter in Hr as [_ Hr].
  specialize (Hall df Hdf). rewrite Forall_forall in Hall.
  specialize (Hall r Hr). rewrite Forall_forall in Hall.
  destruct (get_elem_of (columns df) r.2 c) as [-> | Hin]; [done|].
  by apply Hall.
Qed.

(** Where all values are exact, [pd.concat] changes none. *)
Lemma converted_exact dfs t c :
  exact_values dfs → converted dfs t c = observations dfs t c.
Proof.
  intros Hall. unfold converted.
  pose proof (observations_exact dfs t c Hall) as Hobs.
  induction Hobs as [|v vs Hv _ IH]; [done|].
  rewrite fmap_cons, IH. f_equal. by apply convert_exact.
Qed.

(** The type of a column holds the values of the column as they are. *)
Lemma astype_dtype_of vs v : v ∈ vs → astype (dtype_of vs) v = v.
Proof.
  intros Hv. unfold dtype_of.
  destruct (forallb (holds int64) vs); [done|].
  destruct (forallb (holds uint64) vs); [done|].
  destruct (forallb (holds float64) vs) eqn:E; [|done].
  rewrite forallb_forall in E. apply list_elem_of_In, E in Hv.
  destruct v as [z|]; [|done]. cbn in *.
  apply andb_true_iff in Hv as [Hz%Z.eqb_eq _]. by rewrite Hz.
Qed.

Lemma common_dtype_singleton S c : common_dtype [S] c = column_dtype S c.
Proof. unfold common_dtype. cbn. by destruct (column_dtype S c). Qed.

Lemma converted_singleton S t c : converted [S] t c = observations [S] t c.
Proof.
  unfold converted, observations.
  rewrite common_dtype_singleton, bind_singleton.
  transitivity (id <$> ((λ r, get (columns S) r.2 c)
                          <$> filter (λ r, r.1 = t) (rows S)));
    [|apply list_fmap_id].
  apply list_fmap_ext. intros _ v Hv%list_elem_of_lookup_2.
  apply list_elem_of_fmap in Hv as (r & -> & Hr).
  apply list_elem_of_filter in Hr as [_ Hr].
  unfold column_dtype. destruct (rows S) as [|r0 rs] eqn:Hrows;
    [by apply elem_of_nil in Hr|].
  cbn [convert id]. apply astype_dtype_of.
  unfold column_values. rewrite Hrows.
  by apply (list_elem_of_fmap_2 (λ r, get (columns S) r.2 c)).
Qed.

(** The type of a column does not depend on the order of the rows or of
    the fragments. *)
Lemma forallb_perm {A} (f : A → bool) l l' :
  l ≡ₚ l' → forallb f l = forallb f l'.
Proof.
  induction 1 as [|x l l' _ IH|x y l|l l' l'' _ IH1 _ IH2]; cbn.
  - done.
  - by rewrite IH.
  - by destruct (f x), (f y).
  - by rewrite IH1.
Qed.

Lemma dtype_of_perm l l' : l ≡ₚ l' → dtype_of l = dtype_of l'.
Proof. intros Hp. unfold dtype_of. by rewrite !(forallb_perm _ l l' Hp). Qed.

Lemma column_dtype_rows_permuted d d' c :
  columns d = columns d' → rows d ≡ₚ rows d' →
  column_dtype d c = column_dtype d' c.
Proof.
  intros Hc Hr. unfold column_dtype, column_values. rewrite Hc.
  pose proof (Permutation_length Hr) as Hlen.
  destruct (rows d) as [|r rs], (rows d') as [|r' rs']; try done.
  f_equal. apply dtype_of_perm. by rewrite Hr.
Qed.

Lemma result_type_comm a b : result_type a b = result_type b a.
Proof. by destruct a, b. Qed.

Lemma result_type_assoc a b c :
  result_type a (result_type b c) = result_type (result_type a b) c.
Proof. by destruct a, b, c. Qed.

Lemma common_dtype_perm dfs dfs' c :
  dfs ≡ₚ dfs' → common_dtype dfs c = common_dtype dfs' c.
Proof.
  intros Hp. unfold common_dtype.
  apply (foldr_permutation (=) _ None); [|done].
  intros j1 d1 j2 d2 b _ _ _.
  destruct (column_dtype d1 c) as [t1|], (column_dtype d2 c) as [t2|],
    b as [t|]; cbn; try done; f_equal.
  - by rewrite !result_type_assoc, (result_type_comm t1 t2).
  - apply result_type_comm.
Qed.

Lemma common_dtype_rows_permuted dfs mid c :
  Forall2 rows_permuted dfs mid → common_dtype dfs c = common_dtype mid c.
Proof.
  unfold common_dtype.
  induction 1 as [|d d' dfs mid (_ & Hc & Hr) _ IH]; [done|].
  cbn [foldr]. by rewrite IH, (column_dtype_rows_permuted d d' c Hc Hr).
Qed.

(** ** The shape of the aggregate *)

Lemma elem_of_foldl_union_index acc (ls : list (list string)) c :
  c ∈ foldl union_index acc ls ↔ c ∈ acc ∨ ∃ l, l ∈ ls ∧ c ∈ l.
Proof.
  revert acc. induction ls as [|l ls IH]; intros acc; simpl.
  - split; [by left|]. intros [?|(l & Hl & _)]; [done|].
    by apply elem_of_nil in Hl.
  - rewrite IH. unfold union_index.
    rewrite elem_of_app, list_elem_of_filter. split.
    + intros [[?|[_ ?]]|(l' & Hl' & ?)]; [by left|right..].
      * exists l. split; [left|done].
      * exists l'. split; [by right|done].
    + intros [?|(l' & Hl' & ?)]; [by left; left|].
      apply elem_of_cons in Hl' as [->|Hl'].
      * left. destruct (decide (c ∈ acc)); [by left|by right].
      * right. by exists l'.
Qed.

Lemma elem_of_combined_columns dfs c :
  c ∈ combined_columns dfs ↔ ∃ df, df ∈ dfs ∧ c ∈ columns df.
Proof.
  unfold combined_columns. rewrite elem_of_foldl_union_index. split.
  - intros [Hc|(l & Hl & Hc)]; [by apply elem_of_nil in Hc|].
    apply list_elem_of_fmap in Hl as (df & -> & Hdf). by exists df.
  - intros (df & Hdf & Hc). right. exists (columns df). split; [|done].
    by apply list_elem_of_fmap_2.
Qed.

Lemma get_fmap cols (h : string → cell) c :
  get cols (h <$> cols) c = if decide (c ∈ cols) then h c else None.
Proof.
  induction cols as [|c' cols IH].
  - destruct (decide (c ∈ [])) as [Hc|]; [by apply elem_of_nil in Hc|done].
  - cbn [fmap list_fmap get]. rewrite IH.
    destruct (decide (c' = c)) as [->|Hne].
    + destruct (decide (c ∈ c :: cols)) as [|Hc]; [done|]. destruct Hc. left.
    + destruct (decide (c ∈ cols)), (decide (c ∈ c' :: cols)) as [Hc|Hc];
        try done.
      * destruct Hc. by right.
      * apply elem_of_cons in Hc as [?|?]; congruence.
Qed.

Lemma nth_cell_fmap (f : string → cell) cols j c :
  cols !! j = Some c → nth_cell j (f <$> cols) = f c.
Proof. intros E. unfold nth_cell. by rewrite list_lookup_fmap, E. Qed.

Lemma fmap_seq_columns {B} (G : nat → B) (H : string → B) (cols : list string) :
  (∀ j c, cols !! j = Some c → G j = H c) →
  G <$> seq 0 (length cols) = H <$> cols.
Proof.
  intros HG. apply list_eq. intros j. rewrite !list_lookup_fmap.
  destruct (cols !! j) as [c|] eqn:E; simpl.
  - rewrite lookup_seq_lt by by eapply lookup_lt_Some.
    simpl. f_equal. by apply HG.
  - rewrite lookup_seq_ge; [done|]. by apply lookup_ge_None.
Qed.

Lemma merge_sort_remove_dups_perm (l l' : list Z) :
  l ≡ₚ l' →
  merge_sort Z.le (remove_dups l) = merge_sort Z.le (remove_dups l').
Proof.
  intros Hp. apply (Sorted_unique Z.le); try apply Sorted_merge_sort; try apply _.
  rewrite !merge_sort_Permutation.
  apply NoDup_Permutation; try apply NoDup_remove_dups.
  intros x. by rewrite !elem_of_remove_dups, Hp.
Qed.

(** A row of a fragment as [pd.concat] holds it. *)
Lemma upcast_reindex all cols df r :
  upcast_row all cols (reindex_row cols df r)
  = (r.1, (λ c, convert (common_dtype all c) (get (columns df) r.2 c))
          <$> cols).
Proof.
  unfold upcast_row, reindex_row. cbn [fst snd]. f_equal.
  induction cols as [|c cols IH]; [done|].
  cbn [fmap list_fmap zip_with]. by f_equal.
Qed.

Lemma concat_rows_index all cols dfs :
  (df ← dfs; upcast_row all cols ∘ reindex_row cols df <$> rows df).*1
  = timestamps dfs.
Proof.
  unfold timestamps. induction dfs as [|df dfs IH]; [done|].
  rewrite !bind_cons, fmap_app, IH. f_equal.
  unfold index. rewrite <-list_fmap_compose. by apply list_fmap_ext.
Qed.

Lemma concat_rows_observations all cols dfs k j c :
  cols !! j = Some c →
  nth_cell j <$> (filter (λ r, r.1 = k)
                    (df ← dfs;
                     upcast_row all cols ∘ reindex_row cols df <$> rows df)).*2
  = convert (common_dtype all c) <$> observations dfs k c.
Proof.
  intros Hj. unfold observations.
  induction dfs as [|df dfs IH]; [done|].
  rewrite !bind_cons, filter_app, !fmap_app, IH. f_equal.
  induction (rows df) as [|r rs IHr]; [done|].
  rewrite fmap_cons, !filter_cons.
  change ((upcast_row all cols ∘ reindex_row cols df) r)
    with (upcast_row all cols (reindex_row cols df r)).
  rewrite (upcast_reindex all cols df r). cbn [fst].
  destruct (decide (r.1 = k)); [|done].
  rewrite !fmap_cons, IHr. f_equal. cbn [snd].
  by rewrite (nth_cell_fmap
    (λ c, convert (common_dtype all c) (get (columns df) r.2 c)) cols j c Hj).
Qed.

Lemma concat_Some dfs :
  dfs ≠ [] →
  concat dfs
  = Some {| index_name := combined_index_name dfs;
            columns := combined_columns dfs;
            rows := df ← dfs;
                    upcast_row dfs (combined_columns dfs)
                    ∘ reindex_row (combined_columns dfs) df <$> rows df |}.
Proof. by destruct dfs. Qed.

(** The aggregate written out: one row per distinct instant, ascending,
    with in every column the reduction of the values reported for it. *)
Lemma df_agg_Some dfs S :
  df_agg dfs = Some S →
  index_name S = Some "time"
  ∧ columns S = combined_columns dfs
  ∧ rows S = (λ k, (k, (λ c, cell_max (converted dfs k c))
                         <$> combined_columns dfs))
             <$> merge_sort Z.le (remove_dups (timestamps dfs)).
Proof.
  destruct (decide (dfs = [])) as [->|Hne]; [done|].
  unfold df_agg, dfa. rewrite (concat_Some dfs Hne). simpl. intros [= <-].
  split; [done|]. split; [done|].
  unfold groupby_index_max, group_keys, index. simpl.
  rewrite (merge_sort_remove_dups_perm _ (timestamps dfs)).
  2:{ rewrite merge_sort_Permutation. by rewrite concat_rows_index. }
  apply list_fmap_ext. intros _ k _. f_equal.
  apply fmap_seq_columns. intros j c Hj.
  unfold group, converted. simpl.
  rewrite <-(concat_rows_observations dfs (combined_columns dfs) dfs k j c Hj).
  apply cell_max_perm. by rewrite merge_sort_Permutation.
Qed.

Lemma df_agg_is_Some dfs : dfs ≠ [] → is_Some (df_agg dfs).
Proof. destruct dfs; [done|]. intros _. by eexists. Qed.

Lemma elem_of_group_keys (l : list Z) t :
  t ∈ merge_sort Z.le (remove_dups l) ↔ t ∈ l.
Proof. by rewrite merge_sort_Permutation, elem_of_remove_dups. Qed.

Lemma list_find_keyed {B} (F : Z → B) (keys : list Z) t :
  snd <$> list_find (λ r : Z * B, r.1 = t) ((λ k, (k, F k)) <$> keys)
  = if decide (t ∈ keys) then Some (t, F t) else None.
Proof.
  induction keys as [|k keys IH].
  - by destruct (decide (t ∈ [])) as [Ht|]; [apply elem_of_nil in Ht|].
  - cbn [fmap list_fmap list_find]. simpl.
    destruct (decide (k = t)) as [->|Hne]; simpl.
    + destruct (decide (t ∈ t :: keys)) as [|Ht]; [done|]. destruct Ht. left.
    + rewrite <-option_fmap_compose.
      transitivity (snd <$> list_find (λ r : Z * B, r.1 = t)
                              ((λ k, (k, F k)) <$> keys)).
      { by destruct (list_find _ _) as [[]|]. }
      rewrite IH.
      destruct (decide (t ∈ keys)), (decide (t ∈ k :: keys)) as [Ht|Ht];
        try done.
      * destruct Ht. by right.
      * apply elem_of_cons in Ht as [?|?]; congruence.
Qed.

(** Every field of the aggregate, read by instant and column label. *)
Lemma loc_df_agg dfs S t c :
  df_agg dfs = Some S →
  loc S t c
  = if decide (c ∈ combined_columns dfs ∧ t ∈ timestamps dfs)
    then Some (cell_max (converted dfs t c)) else None.
Proof.
  intros (_ & Hc & Hr)%df_agg_Some. unfold loc. rewrite Hc, Hr.
  pose proof (list_find_keyed
    (λ k, (λ c, cell_max (converted dfs k c)) <$> combined_columns dfs)
    (merge_sort Z.le (remove_dups (timestamps dfs))) t) as Hfind.
  destruct (decide (c ∈ combined_columns dfs)) as [Hcol|Hcol].
  2:{ rewrite decide_False; [done|tauto]. }
  destruct (decide (t ∈ merge_sort Z.le (remove_dups (timestamps dfs))))
    as [Ht|Ht]; rewrite elem_of_group_keys in Ht.
  - rewrite decide_True by done.
    destruct (list_find _ _) as [[i r]|]; [|done].
    simpl in Hfind. injection Hfind as ->. simpl.
    rewrite get_fmap. by rewrite decide_True.
  - rewrite decide_False by tauto.
    by destruct (list_find _ _) as [[i r]|].
Qed.

(** ** Pointwise maximum *)

(** C1, as the script has it. When the values of the fragments are
    integers of magnitude at most 2^53 (or missing), then for every instant
    [t] of some fragment and every column [c] of the aggregate, the field of
    the aggregate at [(t, c)] is the maximum of all values the fragments
    report for [(t, c)], every row of every fragment counted, rows of one
    fragment with the same instant included: it is one of the reported
    values and no reported value is larger. *)
Theorem df_agg_pointwise_maximum dfs S t c :
  exact_values dfs →
  df_agg dfs = Some S →
  t ∈ timestamps dfs →
  c ∈ columns S →
  loc S t c = Some (cell_max (observations dfs t c))
  ∧ ∀ x, Some x ∈ observations dfs t c →
      ∃ m, cell_max (observations dfs t c) = Some m
           ∧ x ≤ m ∧ Some m ∈ observations dfs t c.
Proof.
  intros Hexact HS Ht Hc. split.
  - rewrite (loc_df_agg dfs S t c HS), (converted_exact dfs t c Hexact).
    destruct (df_agg_Some dfs S HS) as (_ & <- & _).
    by rewrite decide_True.
  - intros x Hx. destruct (cell_max_upper _ _ Hx) as (m & Hm & Hle).
    exists m. split; [done|]. split; [done|]. by apply cell_max_attained.
Qed.

(** The scenario of the comment in the source: the snapshot of Dec 15
    reports 73 for Dec 7, the one of Dec 21 reports 18; the aggregate
    keeps 73. *)
Lemma df_agg_pointwise_maximum_scenario :
  ∃ S, df_agg [fragA; fragB] = Some S
       ∧ loc S (day 18603) "clones_total" = Some (Some 73).
Proof.
  eexists. split; [reflexivity|].
  refine (eq_trans (proj1 (df_agg_pointwise_maximum [fragA; fragB] _
            (day 18603) "clones_total" _ eq_refl _ _)) _).
  - repeat constructor; vm_compute; discriminate.
  - apply (bool_decide_unpack _). vm_compute. reflexivity.
  - apply (bool_decide_unpack _). vm_compute. reflexivity.
  - vm_compute. reflexivity.
Defined.

(** C1 as it is worded does not hold: a column that is [int64] in one
    fragment and [uint64] in another is made [float64] by [pd.concat], and
    the count 2^63 + 1 becomes 2^63; the aggregate holds this number, which
    no fragment reports, and not the largest reported value. *)
Lemma maximum_is_rounded_to_float64 :
  df_agg [five; u64]
  = Some {| index_name := Some "time"; columns := ["clones_total"];
            rows := [(day 18603, [Some 9223372036854775808])] |}
  ∧ observations [five; u64] (day 18603) "clones_total"
    = [Some 5; Some 9223372036854775809]
  ∧ cell_max (observations [five; u64] (day 18603) "clones_total")
    = Some 9223372036854775809
  ∧ loc {| index_name := Some "time"; columns := ["clones_total"];
           rows := [(day 18603, [Some 9223372036854775808])] |}
        (day 18603) "clones_total"
    = Some (Some 9223372036854775808).
Proof.
  split; [vm_compute; reflexivity|].
  split; [vm_compute; reflexivity|].
  split; vm_compute; reflexivity.
Qed.

(** The whole aggregate of the scenario, and a fragment that reports one
    instant twice. *)
Example df_agg_scenario :
  df_agg [fragA; fragB]
  = Some {| index_name := Some "time"; columns := ["clones_total"];
            rows := [(day 18597, [Some 10]); (day 18601, [Some 4]);
                     (day 18603, [Some 73])] |}.
Proof. vm_compute. reflexivity. Qed.

Example df_agg_duplicate_in_fragment :
  df_agg [fragC; fragB]
  = Some {| index_name := Some "time"; columns := ["clones_total"];
            rows := [(day 18601, [Some 4]); (day 18603, [Some 18])] |}.
Proof. vm_compute. reflexivity. Qed.

(** ** Order independence *)

Lemma observations_rows_permuted dfs mid t c :
  Forall2 rows_permuted dfs mid →
  observations dfs t c ≡ₚ observations mid t c.
Proof.
  unfold observations. induction 1 as [|d d' dfs mid (_ & Hc & Hr) _ IH]; [done|].
  rewrite !bind_cons, IH, Hc, Hr. done.
Qed.

Lemma timestamps_rows_permuted dfs mid :
  Forall2 rows_permuted dfs mid → timestamps dfs ≡ₚ timestamps mid.
Proof.
  unfold timestamps, index.
  induction 1 as [|d d' dfs mid (_ & _ & Hr) _ IH]; [done|].
  rewrite !bind_cons, IH, Hr. done.
Qed.

Lemma columns_rows_permuted dfs mid c :
  Forall2 rows_permuted dfs mid →
  c ∈ combined_columns dfs ↔ c ∈ combined_columns mid.
Proof.
  intros HF. rewrite !elem_of_combined_columns. split.
  - intros (d & Hd & Hc).
    destruct (proj1 (list_elem_of_lookup _ _) Hd) as [i Hi].
    destruct (Forall2_lookup_l _ _ _ _ _ HF Hi) as (d' & Hi' & _ & Hcols & _).
    exists d'. split; [by eapply list_elem_of_lookup_2|congruence].
  - intros (d' & Hd' & Hc).
    destruct (proj1 (list_elem_of_lookup _ _) Hd') as [i Hi'].
    destruct (Forall2_lookup_r _ _ _ _ _ HF Hi') as (d & Hi & _ & Hcols & _).
    exists d. split; [by eapply list_elem_of_lookup_2|congruence].
Qed.

Lemma fragments_permuted_observations dfs dfs' t c :
  fragments_permuted dfs dfs' →
  observations dfs t c ≡ₚ observations dfs' t c.
Proof.
  intros (mid & HF & Hp).
  rewrite (observations_rows_permuted _ _ t c HF).
  unfold observations. by rewrite Hp.
Qed.

Lemma fragments_permuted_converted dfs dfs' t c :
  fragments_permuted dfs dfs' → converted dfs t c ≡ₚ converted dfs' t c.
Proof.
  intros Hperm. unfold converted.
  assert (common_dtype dfs c = common_dtype dfs' c) as ->.
  { destruct Hperm as (mid & HF & Hp).
    rewrite (common_dtype_rows_permuted _ _ c HF).
    by apply common_dtype_perm. }
  by rewrite (fragments_permuted_observations _ _ t c Hperm).
Qed.

Lemma fragments_permuted_timestamps dfs dfs' :
  fragments_permuted dfs dfs' → timestamps dfs ≡ₚ timestamps dfs'.
Proof.
  intros (mid & HF & Hp). rewrite (timestamps_rows_permuted _ _ HF).
  unfold timestamps. by rewrite Hp.
Qed.

Lemma fragments_permuted_columns dfs dfs' c :
  fragments_permuted dfs dfs' →
  c ∈ combined_columns dfs ↔ c ∈ combined_columns dfs'.
Proof.
  intros (mid & HF & Hp). rewrite (columns_rows_permuted _ _ c HF).
  rewrite !elem_of_combined_columns. by setoid_rewrite Hp.
Qed.

Lemma fragments_permuted_nil dfs dfs' :
  fragments_permuted dfs dfs' → dfs ≠ [] → dfs' ≠ [].
Proof.
  intros (mid & HF & Hp) Hne ->. apply Permutation_nil_r in Hp as ->.
  by apply Forall2_nil_inv_r in HF.
Qed.

Lemma index_df_agg dfs S :
  df_agg dfs = Some S →
  index S = merge_sort Z.le (remove_dups (timestamps dfs)).
Proof.
  intros (_ & _ & Hr)%df_agg_Some. unfold index. rewrite Hr.
  rewrite <-list_fmap_compose. apply list_fmap_id.
Qed.

(** C2. For fragments that pass the test on the columns, the aggregate of
    the same fragments taken in another order, each with its rows in
    another order, has the same index, the same column labels and the same
    field at every instant and column. *)
Theorem df_agg_order_independent dfs dfs' :
  dfs ≠ [] →
  schema_guard ∅ dfs = true →
  fragments_permuted dfs dfs' →
  ∃ S S', df_agg dfs = Some S ∧ df_agg dfs' = Some S'
          ∧ same_series S S'.
Proof.
  intros Hne _ Hperm.
  destruct (df_agg_is_Some dfs Hne) as [S HS].
  destruct (df_agg_is_Some dfs' (fragments_permuted_nil _ _ Hperm Hne))
    as [S' HS'].
  exists S, S'. split; [done|]. split; [done|]. split; [|split].
  - rewrite (index_df_agg _ _ HS), (index_df_agg _ _ HS').
    apply merge_sort_remove_dups_perm.
    by apply fragments_permuted_timestamps.
  - intros c.
    destruct (df_agg_Some _ _ HS) as (_ & -> & _).
    destruct (df_agg_Some _ _ HS') as (_ & -> & _).
    by apply fragments_permuted_columns.
  - intros t c. rewrite (loc_df_agg _ _ t c HS), (loc_df_agg _ _ t c HS').
    rewrite (cell_max_perm _ _ (fragments_permuted_converted _ _ t c Hperm)).
    apply decide_ext.
    by rewrite (fragments_permuted_columns _ _ c Hperm),
               (fragments_permuted_timestamps _ _ Hperm).
Qed.

Lemma df_agg_order_independent_scenario :
  ∃ S S', df_agg [fragA; fragB] = Some S
          ∧ df_agg [fragB_reversed; fragA_reversed] = Some S'
          ∧ same_series S S'.
Proof.
  apply (df_agg_order_independent [fragA; fragB]
           [fragB_reversed; fragA_reversed]).
  - discriminate.
  - vm_compute. reflexivity.
  - exists [fragA_reversed; fragB_reversed]. split.
    + repeat constructor; apply perm_swap.
    + apply perm_swap.
Defined.

(** ** Union of timestamps *)

(** C3. For fragments that pass the test on the columns, the index of the
    aggregate holds exactly the instants of the fragments, each once. *)
Theorem df_agg_union_of_timestamps dfs :
  dfs ≠ [] →
  schema_guard ∅ dfs = true →
  ∃ S, df_agg dfs = Some S
       ∧ (∀ t, t ∈ index S ↔ ∃ df, df ∈ dfs ∧ t ∈ index df)
       ∧ NoDup (index S).
Proof.
  intros Hne _. destruct (df_agg_is_Some dfs Hne) as [S HS].
  exists S. split; [done|]. rewrite (index_df_agg _ _ HS). split.
  - intros t. rewrite elem_of_group_keys. unfold timestamps.
    rewrite list_elem_of_bind. split; intros (df & ? & ?); by exists df.
  - rewrite merge_sort_Permutation. apply NoDup_remove_dups.
Qed.

Lemma df_agg_union_of_timestamps_scenario :
  ∃ S, df_agg [fragA; fragB] = Some S
       ∧ (∀ t, t ∈ index S ↔ ∃ df, df ∈ [fragA; fragB] ∧ t ∈ index df)
       ∧ NoDup (index S).
Proof.
  apply (df_agg_union_of_timestamps [fragA; fragB]).
  - discriminate.
  - vm_compute. reflexivity.
Defined.

(** ** Idempotence *)

Lemma group_keys_fixed (l : list Z) :
  let keys := merge_sort Z.le (remove_dups l) in
  merge_sort Z.le (remove_dups keys) = keys.
Proof.
  intros keys. apply (Sorted_unique Z.le); try apply Sorted_merge_sort; try apply _.
  rewrite merge_sort_Permutation.
  apply NoDup_Permutation; [apply NoDup_remove_dups| |].
  - unfold keys. rewrite merge_sort_Permutation. apply NoDup_remove_dups.
  - intros x. apply elem_of_remove_dups.
Qed.

Lemma filter_keyed_absent {B} (F : Z → B) (keys : list Z) k :
  k ∉ keys →
  filter (λ r : Z * B, r.1 = k) ((λ k, (k, F k)) <$> keys) = [].
Proof.
  induction keys as [|k' keys IH]; intros Hk; [done|].
  rewrite fmap_cons, filter_cons. simpl. rewrite decide_False.
  - apply IH. intros ?. apply Hk. by right.
  - intros ->. apply Hk. left.
Qed.

Lemma filter_keyed {B} (F : Z → B) (keys : list Z) k :
  NoDup keys → k ∈ keys →
  filter (λ r : Z * B, r.1 = k) ((λ k, (k, F k)) <$> keys) = [(k, F k)].
Proof.
  induction keys as [|k' keys IH]; intros Hnd Hk; [by apply elem_of_nil in Hk|].
  apply NoDup_cons in Hnd as [Hk' Hnd]. rewrite fmap_cons, filter_cons. simpl.
  destruct (decide (k' = k)) as [->|Hne].
  - f_equal. by apply filter_keyed_absent.
  - apply IH; [done|]. apply elem_of_cons in Hk as [?|?]; congruence.
Qed.

Lemma combined_columns_singleton S : combined_columns [S] = columns S.
Proof.
  unfold combined_columns, union_index. simpl.
  induction (columns S) as [|c cols IH]; [done|].
  rewrite filter_cons, decide_True by apply not_elem_of_nil. by f_equal.
Qed.

(** C4. The aggregate of the aggregate, taken as the only fragment, is the
    aggregate itself. *)
Theorem df_agg_idempotent dfs S :
  df_agg dfs = Some S → df_agg [S] = Some S.
Proof.
  intros HS. destruct (df_agg_is_Some [S]) as [S2 HS2]; [done|].
  rewrite HS2. f_equal.
  destruct (df_agg_Some _ _ HS) as (Hn & Hc & Hr).
  destruct (df_agg_Some _ _ HS2) as (Hn2 & Hc2 & Hr2).
  rewrite combined_columns_singleton in Hc2, Hr2.
  assert (timestamps [S] = merge_sort Z.le (remove_dups (timestamps dfs)))
    as Hts.
  { unfold timestamps. rewrite bind_singleton. by apply index_df_agg. }
  rewrite Hts, group_keys_fixed in Hr2.
  assert (rows S2 = rows S) as Hrows.
  { rewrite Hr2, Hr, Hc.
    apply list_fmap_ext. intros _ k Hk%list_elem_of_lookup_2. f_equal.
    apply list_fmap_ext. intros _ c Hcol%list_elem_of_lookup_2.
    rewrite converted_singleton.
    unfold observations at 1. rewrite bind_singleton, Hr.
    rewrite filter_keyed;
      [|rewrite merge_sort_Permutation; apply NoDup_remove_dups|done].
    rewrite list_fmap_singleton, cell_max_singleton, Hc. simpl.
    by rewrite get_fmap, decide_True. }
  destruct S, S2; simpl in *; congruence.
Qed.

Lemma df_agg_idempotent_scenario :
  ∃ S, df_agg [fragA; fragB] = Some S ∧ df_agg [S] = Some S.
Proof.
  eexists. split; [reflexivity|].
  apply (df_agg_idempotent [fragA; fragB]). reflexivity.
Defined.

(** ** The test on the columns, on loaded fragments *)

Lemma schema_guard_seen seen dfs :
  seen ≠ ∅ →
  schema_guard seen dfs = true
  ↔ Forall (λ df, list_to_set (columns df) = seen) dfs.
Proof.
  intros Hseen. induction dfs as [|df dfs IH]; simpl; [by split|].
  destruct (decide (seen ≠ ∅ ∧ list_to_set (columns df) ≠ seen)) as [[_ Hne]|Hok].
  - split; [done|]. by intros [? _]%Forall_cons.
  - assert (list_to_set (columns df) = seen) as Heq.
    { destruct (decide (list_to_set (columns df) = seen)); [done|].
      destruct Hok. by split. }
    rewrite Heq, union_idemp_L, IH, Forall_cons. tauto.
Qed.

(** When the first fragment has a column, the test accepts exactly the
    lists in which every fragment has the columns of the first, in any
    order. *)
Lemma schema_guard_first df dfs :
  columns df ≠ [] →
  schema_guard ∅ (df :: dfs) = true
  ↔ Forall (λ d, list_to_set (columns d) =@{gset string}
                 list_to_set (columns df)) dfs.
Proof.
  intros Hcols. simpl. rewrite decide_False by by intros [[] _].
  rewrite union_empty_l_L. apply schema_guard_seen.
  destruct (columns df) as [|c cols]; [done|].
  intros Hempty. apply (not_elem_of_empty (C:=gset string) c).
  rewrite <-Hempty. apply elem_of_list_to_set. left.
Qed.

(** ** The file system *)

Lemma resolve_fresh_dirs p : resolve (fresh_dirs p) p = Some (Dir ∅).
Proof.
  induction p as [|c p IH]; [done|].
  simpl. by rewrite lookup_singleton_eq.
Qed.

Lemma makedirs_resolve root p root' :
  os.makedirs root p = Some root' → stat root' p = Some (Dir ∅).
Proof.
  destruct p as [|c0 p0]; [by destruct root|].
  unfold stat. revert root root'. generalize (c0 :: p0). clear c0 p0. intros p.
  revert p.
  assert (∀ p root root',
    os.makedirs root p = Some root' → resolve root' p = Some (Dir ∅)) as H;
    [|by intros p root root'; apply H].
  intros p root root'.
  revert root root'. induction p as [|c p IH]; intros [text|es] root'; try done.
  simpl. destruct (es !! c) as [n'|] eqn:E.
  - destruct (os.makedirs n' p) as [n''|] eqn:E'; [|done].
    intros [= <-]. simpl. rewrite lookup_insert_eq. simpl. by eapply IH.
  - intros [= <-]. simpl. rewrite lookup_insert_eq. simpl.
    apply resolve_fresh_dirs.
Qed.


Lemma put_File text p new : put (File text) p new = None.
Proof. by destruct p as [|? [|]]. Qed.

Lemma put_one es c new :
  put (Dir es) [c] new
  = Some (Dir (match new with Some x => <[c:=x]> es | None => delete c es end)).
Proof. done. Qed.

Lemma put_cons es c c' p new :
  put (Dir es) (c :: c' :: p) new
  = n' ← es !! c; n'' ← put n' (c' :: p) new; Some (Dir (<[c:=n'']> es)).
Proof. done. Qed.

Lemma makedirs_cons es c p :
  os.makedirs (Dir es) (c :: p)
  = match es !! c with
    | None => Some (Dir (<[c:=fresh_dirs p]> es))
    | Some n' => n'' ← os.makedirs n' p; Some (Dir (<[c:=n'']> es))
    end.
Proof. done. Qed.

Lemma put_resolve root p n root' :
  put root p (Some n) = Some root' → resolve root' p = Some n.
Proof.
  revert root root'. induction p as [|c p IH]; intros root root';
    [by destruct root|].
  destruct root as [text|es]; [by rewrite put_File|].
  destruct p as [|c' p].
  - rewrite put_one. intros [= <-]. simpl. by rewrite lookup_insert_eq.
  - rewrite put_cons. destruct (es !! c) as [n'|]; [|done].
    cbn [mbind option_bind].
    destruct (put n' (c' :: p) (Some n)) as [n''|] eqn:E'; [|done].
    intros [= <-]. cbn [resolve]. rewrite lookup_insert_eq.
    cbn [mbind option_bind]. by eapply IH.
Qed.

Lemma resolve_app root p q :
  resolve root (p ++ q) = resolve root p ≫= λ n, resolve n q.
Proof.
  revert root. induction p as [|c p IH]; intros root; [done|].
  simpl. destruct root as [text|es]; [done|].
  destruct (es !! c) as [n|]; [|done]. simpl. apply IH.
Qed.

Lemma stat_below_empty root p q :
  stat root p = Some (Dir ∅) → q ≠ [] → stat root (p ++ q) = None.
Proof.
  intros Hp Hq.
  assert (stat root (p ++ q) = resolve root (p ++ q)) as -> by by destruct p.
  assert (stat root p = resolve root p) as Hst by by destruct p.
  rewrite resolve_app, <-Hst, Hp.
  destruct q as [|d q]; [done|]. simpl. by rewrite lookup_empty.
Qed.

(** A change at [p] is not seen from a path that neither leads to [p] nor
    through it. *)
Lemma put_frame root p new root' q :
  put root p new = Some root' →
  ¬ p `prefix_of` q → ¬ q `prefix_of` p →
  resolve root' q = resolve root q.
Proof.
  revert root root' q.
  induction p as [|c p IH]; intros root root' q; [by destruct root|].
  destruct root as [text|es]; [by rewrite put_File|].
  destruct q as [|d q]; [intros _ _ Hq; destruct Hq; apply prefix_nil|].
  destruct p as [|c' p].
  - rewrite put_one. intros [= <-] Hpq _.
    assert (c ≠ d) as Hne.
    { intros ->. apply Hpq. apply prefix_cons, prefix_nil. }
    cbn [resolve]. destruct new; by rewrite ?lookup_insert_ne, ?lookup_delete_ne.
  - rewrite put_cons. destruct (es !! c) as [n'|] eqn:E; [|done].
    cbn [mbind option_bind].
    destruct (put n' (c' :: p) new) as [n''|] eqn:E'; [|done].
    intros [= <-] Hpq Hqp. cbn [resolve].
    destruct (decide (c = d)) as [->|Hne].
    + rewrite lookup_insert_eq, E. cbn [mbind option_bind].
      eapply IH; [done| |].
      * intros ?. apply Hpq. by apply prefix_cons.
      * intros ?. apply Hqp. by apply prefix_cons.
    + by rewrite lookup_insert_ne.
Qed.

(** Removing a directory and making it again leaves an empty directory in
    its place. *)
Lemma rmtree_makedirs root p es :
  stat root p = Some (Dir es) →
  ∃ root1 root2,
    shutil.rmtree root p = Some root1
    ∧ os.makedirs root1 p = Some root2
    ∧ put root p (Some (Dir ∅)) = Some root2.
Proof.
  unfold shutil.rmtree, os.path_isdir. intros Hst. rewrite Hst.
  destruct p as [|c p]; [done|]. cbn [stat] in Hst.
  revert c root Hst. induction p as [|c' p IH]; intros c root Hst.
  - destruct root as [text|es0]; [done|].
    cbn [resolve] in Hst. destruct (es0 !! c) as [n|] eqn:E; [|done].
    cbn [mbind option_bind] in Hst. injection Hst as ->.
    rewrite !put_one. eexists _, _. split; [done|].
    rewrite makedirs_cons, lookup_delete_eq.
    split; [done|]. by rewrite insert_delete_eq.
  - destruct root as [text|es0]; [done|].
    cbn [resolve] in Hst. destruct (es0 !! c) as [n|] eqn:E; [|done].
    cbn [mbind option_bind] in Hst.
    destruct (IH c' n Hst) as (n1 & n2 & H1 & H2 & H3).
    rewrite !put_cons, E. cbn [mbind option_bind]. rewrite H1, H3.
    cbn [mbind option_bind].
    eexists _, _. split; [done|].
    rewrite makedirs_cons, lookup_insert_eq, H2.
    cbn [mbind option_bind]. by rewrite insert_insert_eq.
Qed.

(** What [os.makedirs] leaves alone, and when it succeeds. *)
Lemma makedirs_frame root p root' q :
  os.makedirs root p = Some root' →
  ¬ p `prefix_of` q → ¬ q `prefix_of` p →
  resolve root' q = resolve root q.
Proof.
  revert root root' q.
  induction p as [|c p IH]; intros root root' q; [by destruct root|].
  destruct root as [text|es]; [done|].
  destruct q as [|d q]; [intros _ _ Hq; destruct Hq; apply prefix_nil|].
  rewrite makedirs_cons. intros Hmk Hpq Hqp.
  destruct (decide (c = d)) as [->|Hne].
  - destruct (es !! d) as [n'|] eqn:E.
    + destruct (os.makedirs n' p) as [n''|] eqn:E'; [|done].
      injection Hmk as <-. cbn [resolve].
      rewrite lookup_insert_eq, E. cbn [mbind option_bind].
      eapply IH; [done| |].
      * intros ?. apply Hpq. by apply prefix_cons.
      * intros ?. apply Hqp. by apply prefix_cons.
    + injection Hmk as <-. cbn [resolve].
      rewrite lookup_insert_eq, E. cbn [mbind option_bind].
      clear IH E. revert q Hpq Hqp.
      induction p as [|c' p IHp]; intros q Hpq Hqp.
      { destruct Hpq. apply prefix_cons, prefix_nil. }
      destruct q as [|d' q]; [destruct Hqp; apply prefix_cons, prefix_nil|].
      cbn [fresh_dirs resolve].
      destruct (decide (c' = d')) as [->|Hne'].
      * rewrite lookup_singleton_eq. cbn [mbind option_bind].
        apply IHp.
        -- intros ?%(prefix_cons_inv_2 d d). apply Hpq.
           by apply prefix_cons, prefix_cons.
        -- intros ?%(prefix_cons_inv_2 d d). apply Hqp.
           by apply prefix_cons, prefix_cons.
      * by rewrite lookup_singleton_ne.
  - destruct (es !! c) as [n'|] eqn:E.
    + destruct (os.makedirs n' p) as [n''|]; [|done].
      injection Hmk as <-. cbn [resolve]. by rewrite lookup_insert_ne.
    + injection Hmk as <-. cbn [resolve]. by rewrite lookup_insert_ne.
Qed.

Lemma makedirs_is_Some root p :
  p ≠ [] → stat root p = None →
  (∀ q text, q `prefix_of` p → resolve root q ≠ Some (File text)) →
  is_Some (os.makedirs root p).
Proof.
  revert root. induction p as [|c p IH]; intros root Hp Hnone Hfile; [done|].
  destruct root as [text|es].
  { destruct (Hfile [] text); [apply prefix_nil|done]. }
  rewrite makedirs_cons. destruct (es !! c) as [n'|] eqn:E; [|by eexists].
  cbn [stat resolve] in Hnone. rewrite E in Hnone.
  cbn [mbind option_bind] in Hnone.
  destruct (IH n') as [n'' Hn''].
  - intros ->. done.
  - by destruct p.
  - intros q text Hq Hres. apply (Hfile (c :: q) text).
    + by apply prefix_cons.
    + cbn [resolve]. by rewrite E.
  - rewrite Hn''. by eexists.
Qed.

(** Nothing lies below a file; [os.makedirs] leads through no file, and
    what is put at a path has directories above it. *)
Lemma resolve_below_file root f text q :
  resolve root f = Some (File text) → f `prefix_of` q →
  is_Some (resolve root q) → q = f.
Proof.
  intros Hf [k ->] Hq. rewrite resolve_app, Hf in Hq.
  destruct k as [|c k]; [by rewrite app_nil_r|]. by destruct Hq.
Qed.

Lemma makedirs_not_through_file root p root' q text :
  os.makedirs root p = Some root' → q `prefix_of` p →
  resolve root q ≠ Some (File text).
Proof.
  revert root root' q. induction p as [|c p IH]; intros root root' q;
    [by destruct root|].
  destruct root as [t|es]; [done|]. rewrite makedirs_cons.
  destruct q as [|d q]; [done|]. intros Hmk Hq.
  assert (d = c) as -> by by eapply prefix_cons_inv_1.
  apply prefix_cons_inv_2 in Hq. cbn [resolve].
  destruct (es !! c) as [n'|]; [|done]. cbn [mbind option_bind].
  destruct (os.makedirs n' p) as [n''|] eqn:E; [|done]. by eapply IH.
Qed.

Lemma put_below_directories root p new root' q :
  put root p new = Some root' → q `prefix_of` p → q ≠ p →
  ∃ es, resolve root q = Some (Dir es).
Proof.
  revert root root' q. induction p as [|c p IH]; intros root root' q;
    [by destruct root|].
  destruct root as [t|es]; [by rewrite put_File|].
  destruct q as [|d q]; [by eexists|]. intros Hput Hq Hne.
  assert (d = c) as -> by by eapply prefix_cons_inv_1.
  apply prefix_cons_inv_2 in Hq.
  destruct p as [|c' p].
  { apply prefix_nil_inv in Hq as ->. done. }
  rewrite put_cons in Hput. cbn [resolve].
  destruct (es !! c) as [n'|]; [|done]. cbn [mbind option_bind] in *.
  destruct (put n' (c' :: p) new) as [n''|] eqn:E; [|done].
  eapply IH; [done..|]. by intros ->.
Qed.

Lemma write_file_Some root p content root' :
  write_file root p content = Some root' →
  put root p (Some (File content)) = Some root'.
Proof. unfold write_file. by destruct (os.path_isdir root p). Qed.

(** A file that is written is there afterwards, and so is every file
    beside it. *)
Lemma write_file_stat root p content root' :
  write_file root p content = Some root' →
  stat root' p = Some (File content).
Proof.
  intros Hw%write_file_Some. destruct p as [|c p]; [by destruct root|].
  by eapply put_resolve.
Qed.

Lemma resolve_above_is_dir root p q :
  p `prefix_of` q → p ≠ q → is_Some (resolve root q) →
  ∃ es, resolve root p = Some (Dir es).
Proof.
  intros [k ->] Hne Hq. rewrite resolve_app in Hq.
  destruct (resolve root p) as [[text|es]|]; [|by eexists|by destruct Hq].
  destruct k as [|c k]; [by rewrite app_nil_r in Hne|]. by destruct Hq.
Qed.

Lemma makedirs_fresh root p root' :
  os.makedirs root p = Some root' → resolve root p = None.
Proof.
  revert root root'. induction p as [|c p IH]; intros root root';
    [by destruct root|].
  destruct root as [t|es]; [done|]. rewrite makedirs_cons. cbn [resolve].
  destruct (es !! c) as [n'|]; [|done]. cbn [mbind option_bind].
  destruct (os.makedirs n' p) as [n''|] eqn:E; [|done]. intros _.
  by eapply IH.
Qed.

Lemma write_file_keeps_file root p content root' f text :
  write_file root p content = Some root' →
  stat root f = Some (File text) → f ≠ p →
  stat root' f = Some (File text).
Proof.
  intros Hw Hf Hne.
  assert (resolve root f = Some (File text)) as Hf' by by destruct f.
  assert (f ≠ []) as Hnil by by intros ->.
  assert (stat root' f = resolve root' f) as -> by by destruct f.
  rewrite <-Hf'. eapply put_frame; [by apply write_file_Some| |].
  - intros Hpf.
    destruct (resolve_above_is_dir root p f Hpf) as [es Hes];
      [done|by rewrite Hf'|].
    unfold write_file, os.path_isdir in Hw.
    destruct p as [|c p]; [by destruct root|].
    cbn [stat] in Hw. by rewrite Hes in Hw.
  - intros Hfp. apply write_file_Some in Hw.
    destruct (put_below_directories _ _ _ _ _ Hw Hfp Hne) as [es Hes].
    congruence.
Qed.

(** A tree that is copied is at its new place afterwards, and every file
    that was there before is kept. *)
Lemma copytree_stat root src dst root' :
  shutil.copytree root src dst = Some root' →
  ∃ es, stat root src = Some (Dir es) ∧ stat root' dst = Some (Dir es).
Proof.
  unfold shutil.copytree.
  destruct (stat root src) as [[text|es]|]; try done.
  destruct (os.makedirs root dst) as [r|] eqn:Hmk; [|done].
  cbn [mbind option_bind]. intros Hput. exists es. split; [done|].
  destruct dst as [|c dst]; [by destruct root|]. by eapply put_resolve.
Qed.

Lemma copytree_keeps_file root src dst root' f text :
  shutil.copytree root src dst = Some root' →
  stat root f = Some (File text) →
  stat root' f = Some (File text).
Proof.
  unfold shutil.copytree. intros Hcp Hf.
  destruct (stat root src) as [[t|es]|]; try done.
  destruct (os.makedirs root dst) as [r|] eqn:Hmk; [|done].
  cbn [mbind option_bind] in Hcp.
  assert (resolve root f = Some (File text)) as Hf' by by destruct f.
  assert (stat root' f = resolve root' f) as -> by by destruct f.
  assert (¬ dst `prefix_of` f) as H1.
  { intros [k ->]. pose proof (makedirs_fresh _ _ _ Hmk) as Hnone.
    rewrite resolve_app, Hnone in Hf'. done. }
  assert (¬ f `prefix_of` dst) as H2.
  { intros Hfd. by apply (makedirs_not_through_file _ _ _ f text Hmk). }
  rewrite (put_frame _ _ _ _ f Hcp H1 H2).
  by rewrite (makedirs_frame _ _ _ f Hmk H1 H2).
Qed.

(** ** What argparse accepts *)

Lemma short_options_not_Parsed e av :
  argparse.short_options e ≠ argparse.Parsed av.
Proof.
  induction e as [|c e IH]; [done|]. cbn [argparse.short_options].
  by destruct (argparse.option_action _) as [[|d]|].
Qed.

Lemma option_without_value_not_Parsed os e av :
  argparse.option_without_value os e ≠ argparse.Parsed av.
Proof.
  unfold argparse.option_without_value.
  destruct (Str.startswith os "--"); [done|]. destruct e; [done|].
  apply short_options_not_Parsed.
Qed.

Lemma positionals_set_dest d v vs :
  argparse.positionals (argparse.set_dest d v vs) = argparse.positionals vs.
Proof. by destruct d. Qed.

Lemma take_positionals_csvpath run vs :
  argparse.positionals vs ≠ Some [] →
  argparse.positionals (argparse.take_positionals run vs) ≠ Some [].
Proof.
  intros Hvs. unfold argparse.take_positionals. destruct run as [|a run]; [done|].
  destruct (argparse.positionals vs) as [ps|] eqn:E; [by cbn; rewrite E|].
  destruct (argparse.remove_first "--" (a :: run)); cbn; [by rewrite E|done].
Qed.

Lemma finish_csvpath vs av :
  argparse.positionals vs ≠ Some [] →
  argparse.finish vs = argparse.Parsed av → arg_csvpath av ≠ [].
Proof.
  unfold argparse.finish. destruct (argparse.positionals vs) as [ps|]; [|done].
  destruct (argparse.extras vs); [done|]. intros Hne [= <-]. cbn.
  destruct ps; [done|discriminate].
Qed.

Lemma consume_csvpath n args run dashes vs av :
  (length args ≤ n)%nat →
  argparse.positionals vs ≠ Some [] →
  argparse.consume args run dashes vs = argparse.Parsed av →
  arg_csvpath av ≠ [].
Proof.
  revert args run dashes vs.
  induction n as [|n IH]; intros args run dashes vs Hlen Hvs.
  { destruct args; [|cbn in Hlen; lia]. cbn [argparse.consume].
    apply finish_csvpath. by apply take_positionals_csvpath. }
  destruct args as [|arg args'].
  { cbn [argparse.consume]. apply finish_csvpath.
    by apply take_positionals_csvpath. }
  cbn [length] in Hlen. cbn [argparse.consume].
  destruct dashes; [apply IH; [lia|done]|].
  destruct (decide (arg = "--")); [apply IH; [lia|done]|].
  destruct (argparse.parse_optional arg) as [| |[[|d]|] os [e|]].
  - apply IH; [lia|done].
  - done.
  - intros H. by apply option_without_value_not_Parsed in H.
  - done.
  - apply IH; [lia|]. rewrite positionals_set_dest.
    by apply take_positionals_csvpath.
  - destruct args' as [|v args'']; [done|].
    destruct (decide (v = "--")); [done|].
    destruct (argparse.parse_optional v); try done.
    apply IH; [cbn [length] in Hlen; lia|]. rewrite positionals_set_dest.
    by apply take_positionals_csvpath.
  - apply IH; [lia|]. by apply take_positionals_csvpath.
  - apply IH; [lia|]. by apply take_positionals_csvpath.
Qed.

(** Command lines as argparse reads them: options may be abbreviated and
    may carry their value after [=]; after [--] every argument is a
    source; the sources must stand together; an option without its value
    and an abbreviation of several options are errors, also after [-h];
    what looks like a negative number is no option. *)
Example argparse_reads_options :
  argparse.parse_args
    ["a.csv"; "b/c.csv"; "--out"; "o/p"; "--pandoc-command=pd"]
  = argparse.Parsed
      {| arg_csvpath := [["a.csv"]; ["b"; "c.csv"]];
         arg_pandoc_command := Some "pd";
         arg_resources_directory := None;
         arg_output_directory := Some ["o"; "p"] |}
  ∧ argparse.parse_args ["--o=x"; "--"; "-h"; "a"]
    = argparse.Parsed
        {| arg_csvpath := [["-h"]; ["a"]];
           arg_pandoc_command := None;
           arg_resources_directory := None;
           arg_output_directory := Some ["x"] |}
  ∧ argparse.parse_args ["-1"; "--resources-directory"; "-.5"]
    = argparse.Parsed
        {| arg_csvpath := [["-1"]];
           arg_pandoc_command := None;
           arg_resources_directory := Some ["-.5"];
           arg_output_directory := None |}.
Proof. repeat split; vm_compute; reflexivity. Qed.

Example argparse_rejects :
  argparse.parse_args ["a.csv"; "--output-directory"; "out"; "b.csv"]
  = argparse.Error
  ∧ argparse.parse_args ["a.csv"; "--output-directory"] = argparse.Error
  ∧ argparse.parse_args ["a.csv"; "--bogus"] = argparse.Error
  ∧ argparse.parse_args ["a.csv"; "--=x"; "-h"] = argparse.Error
  ∧ argparse.parse_args ["--output-directory"; "-h"] = argparse.Error
  ∧ argparse.parse_args [] = argparse.Error.
Proof. repeat split; vm_compute; reflexivity. Qed.

Example argparse_helps :
  argparse.parse_args ["-h"] = argparse.Help
  ∧ argparse.parse_args ["--he"; "--bogus"] = argparse.Help
  ∧ argparse.parse_args ["a.csv"; "--bogus"; "-hh"] = argparse.Help.
Proof. repeat split; vm_compute; reflexivity. Qed.

(** argparse accepts a command line only with a source. *)
Lemma accepted_has_csvpath sys_argv av :
  argparse.parse_args sys_argv = argparse.Parsed av → arg_csvpath av ≠ [].
Proof.
  unfold argparse.parse_args. destruct (argparse.has_ambiguous sys_argv); [done|].
  by apply (consume_csvpath (length sys_argv)).
Qed.

(** ** The run *)

Section script_properties.

Variable TODAY : string.
Variable report_md_text : string.
Variable tokenize : string → option document.
Variable to_datetime : string → option Z.
Variable chart_html : DataFrame → DataFrame → string.
Variable subprocess_run : list arg → node → option (node * Z).

(** The equations of the loop, of [load] and of [main]. *)
Lemma read_fragments_cons p ps dfs seen :
  read_fragments tokenize to_datetime (p :: ps) dfs seen
  = (_ ← log_info "attempt to parse %s" [APath p];
     df ← read_csv tokenize to_datetime p;
     if decide (seen ≠ ∅ ∧ list_to_set (columns df) ≠ seen)
     then
       _ ← log_error "columns seen so far: %s" [ASet seen];
       _ ← log_error "columns in %s: %s" [APath p; AColumns (columns df)];
       sys_exit 1
     else
       read_fragments tokenize to_datetime ps (dfs ++ [df])
         (seen ∪ list_to_set (columns df))).
Proof. done. Qed.

Lemma load_eq args :
  load tokenize to_datetime args
  = (_ ← log_info "read views/clones time series fragments (CSV docs)" [];
     _ ← log_info "number of csv files provided: %s"
           [ANat (length (csvpath args))];
     read_fragments tokenize to_datetime (csvpath args) [] ∅).
Proof. done. Qed.

Lemma main_eq av :
  main TODAY report_md_text tokenize to_datetime chart_html subprocess_run av
  = (args ← parse_args TODAY av;
     dfs ← load tokenize to_datetime args;
     agg ← aggregate dfs;
     report TODAY report_md_text chart_html subprocess_run args agg).
Proof. done. Qed.

Lemma program_eq sys_argv :
  program TODAY report_md_text tokenize to_datetime chart_html subprocess_run
    sys_argv
  = match argparse.parse_args sys_argv with
    | argparse.Parsed av =>
        main TODAY report_md_text tokenize to_datetime chart_html
          subprocess_run av
    | argparse.Help => sys_exit 0
    | argparse.Error => sys_exit 2
    end.
Proof. done. Qed.

Local Abbreviation parse_args := (parse_args TODAY).
Local Abbreviation namespace := (namespace TODAY).
Local Abbreviation date_parser := (date_parser to_datetime).
Local Abbreviation read_csv := (read_csv tokenize to_datetime).
Local Abbreviation read_fragments := (read_fragments tokenize to_datetime).
Local Abbreviation load := (load tokenize to_datetime).
Local Abbreviation unparseable := (unparseable tokenize to_datetime).
Local Abbreviation report :=
  (report TODAY report_md_text chart_html subprocess_run).
Local Abbreviation main :=
  (main TODAY report_md_text tokenize to_datetime chart_html subprocess_run).
Local Abbreviation program :=
  (program TODAY report_md_text tokenize to_datetime chart_html
     subprocess_run).

Lemma bind_Return {A B} (m : M A) (f : A → M B) w a w' :
  m w = (Return a, w') → (m ≫= f) w = f a w'.
Proof. unfold mbind, M_bind. by intros ->. Qed.

Lemma bind_Exit {A B} (m : M A) (f : A → M B) w code w' :
  m w = (Exit code, w') → (m ≫= f) w = (Exit code, w').
Proof. unfold mbind, M_bind. by intros ->. Qed.

Lemma bind_Raise {A B} (m : M A) (f : A → M B) w e w' :
  m w = (Raise e, w') → (m ≫= f) w = (Raise e, w').
Proof. unfold mbind, M_bind. by intros ->. Qed.

Lemma bind_lift_inl {A B} e (f : A → M B) w :
  (lift (inl e) ≫= f) w = (Raise e, w).
Proof. done. Qed.

Lemma bind_lift_inr {A B} a (f : A → M B) w : (lift (inr a) ≫= f) w = f a w.
Proof. done. Qed.

(** *** Argument parsing *)

Lemma parse_args_no_csvpath av w :
  arg_csvpath av = [] → parse_args av w = (Exit 2, w).
Proof. unfold parse_args. by intros ->. Qed.

Lemma parse_args_Return av w args w1 :
  parse_args av w = (Return args, w1) →
  arg_csvpath av ≠ [] ∧ args = namespace av
  ∧ stdout w1 = stdout w
  ∧ OUTDIR w1 = Some (output_directory args)
  ∧ stat (fs w1) (output_directory args) = Some (Dir ∅).
Proof.
  unfold parse_args. destruct (arg_csvpath av) as [|p ps] eqn:Hps; [done|].
  set (d := output_directory (namespace av)).
  unfold mbind, M_bind, fs_test, fs_step, log_info, log_error, log_record,
    sys_exit, set_OUTDIR, mret, M_ret.
  destruct (os.path_exists (fs w) d); [destruct (os.path_isdir (fs w) d)|];
    cbn [fs OUTDIR log stdout]; try done.
  - destruct (shutil.rmtree (fs w) d) as [root1|]; [|done].
    cbn [fs OUTDIR log stdout].
    destruct (os.makedirs root1 d) as [root2|] eqn:Hmk; [|done].
    intros [= <- <-]. cbn [fs OUTDIR log stdout].
    repeat split; try done. by eapply makedirs_resolve.
  - destruct (os.makedirs (fs w) d) as [root2|] eqn:Hmk; [|done].
    intros [= <- <-]. cbn [fs OUTDIR log stdout].
    repeat split; try done. by eapply makedirs_resolve.
Qed.

(** *** Loading *)

Lemma date_parser_inl col e :
  date_parser col = inl e →
  ∃ s, e = ParserError s ∧ s ∈ col ∧ to_datetime s = None.
Proof.
  induction col as [|s col IH]; simpl; [done|].
  destruct (to_datetime s) as [t|] eqn:E.
  - destruct (date_parser col) as [e'|ts]; [|done].
    intros [= <-]. destruct (IH eq_refl) as (s' & -> & Hs' & Hnone).
    exists s'. split; [done|]. split; [by right|done].
  - intros [= <-]. exists s. split; [done|]. split; [left|done].
Qed.

Lemma date_parser_inr col ts :
  date_parser col = inr ts → Forall (λ s, is_Some (to_datetime s)) col.
Proof.
  revert ts. induction col as [|s col IH]; intros ts; simpl; [by constructor|].
  destruct (to_datetime s) as [t|] eqn:E; [|done].
  destruct (date_parser col) as [e'|ts']; [done|].
  intros _. constructor; [by rewrite E|by eapply IH].
Qed.

Lemma read_csv_world p w o w' : read_csv p w = (o, w') → w' = w.
Proof.
  unfold read_csv.
  destruct (stat (fs w) p) as [[text|es]|]; try by intros [= _ <-].
  destruct (tokenize text) as [doc|]; try by intros [= _ <-].
  destruct (date_parser _); by intros [= _ <-].
Qed.

Lemma read_csv_no_exit p w code w' : read_csv p w ≠ (Exit code, w').
Proof.
  unfold read_csv.
  destruct (stat (fs w) p) as [[text|es]|]; try done.
  destruct (tokenize text) as [doc|]; try done.
  by destruct (date_parser _).
Qed.

Lemma read_csv_fs p w w' : fs w' = fs w → (read_csv p w').1 = (read_csv p w).1.
Proof.
  unfold read_csv. intros ->.
  destruct (stat (fs w) p) as [[text|es]|]; try done.
  destruct (tokenize text) as [doc|]; try done.
  by destruct (date_parser _).
Qed.

(** The reader stops at a field that is no date and raises with its text. *)
Lemma read_csv_unparseable p w s0 :
  unparseable (fs w) p s0 →
  ∃ s, unparseable (fs w) p s ∧ read_csv p w = (Raise (ParserError s), w).
Proof.
  intros (text & doc & Hst & Htok & Hs0 & Hnone). unfold read_csv.
  rewrite Hst, Htok. destruct (date_parser _) as [e|ts] eqn:E.
  - destruct (date_parser_inl _ _ E) as (s & -> & Hs & Hn).
    exists s. split; [|done]. by exists text, doc.
  - apply date_parser_inr in E.
    rewrite Forall_forall in E. apply E in Hs0 as [t Ht]. congruence.
Qed.

(** The loop leaves the files, the standard output and [OUTDIR] as they
    are; what it returns is what it was given and one frame per path, the
    frames accepted by the test of line 73; when it exits, the status
    is 1. *)
Lemma read_fragments_spec ps dfs seen w o w' :
  read_fragments ps dfs seen w = (o, w') →
  fs w' = fs w ∧ OUTDIR w' = OUTDIR w ∧ stdout w' = stdout w
  ∧ match o with
    | Return dfs' =>
        ∃ new, dfs' = dfs ++ new ∧ length new = length ps
               ∧ schema_guard seen new = true
    | Exit code => code = 1
    | Raise _ => True
    end.
Proof.
  revert dfs seen w. induction ps as [|p ps IH]; intros dfs seen w.
  { intros [= <- <-]. repeat split; try done.
    exists []. by rewrite app_nil_r. }
  rewrite read_fragments_cons.
  unfold mbind, M_bind, log_info, log_error, log_record, sys_exit.
  destruct (read_csv p _) as [[df|code|e] w1] eqn:Hread;
    pose proof (read_csv_world _ _ _ _ Hread) as ->;
    cbn [fs OUTDIR log stdout];
    [|by apply read_csv_no_exit in Hread|by intros [= <- <-]].
  destruct (decide (seen ≠ ∅ ∧ list_to_set (columns df) ≠ seen)) as [Hbad|Hok].
  - by intros [= <- <-].
  - intros Hrest. apply IH in Hrest as (Hfs & Hout & Hstd & Ho).
    cbn [fs OUTDIR log stdout] in *. repeat split; try done.
    destruct o as [dfs'| |]; try done.
    destruct Ho as (new & -> & Hlen & Hguard).
    exists (df :: new). rewrite <-app_assoc. split; [done|].
    split; [by rewrite !length_cons, Hlen|].
    cbn [schema_guard]. by rewrite decide_False.
Qed.

Lemma load_spec args w o w' :
  load args w = (o, w') →
  fs w' = fs w ∧ OUTDIR w' = OUTDIR w ∧ stdout w' = stdout w
  ∧ match o with
    | Return dfs =>
        length dfs = length (csvpath args) ∧ schema_guard ∅ dfs = true
    | Exit code => code = 1
    | Raise _ => True
    end.
Proof.
  rewrite load_eq. unfold mbind, M_bind, log_info, log_record.
  intros (Hfs & Hout & Hstd & Ho)%read_fragments_spec.
  cbn [fs OUTDIR log stdout] in *. repeat split; try done.
  destruct o as [dfs| |]; try done.
  by destruct Ho as (new & -> & Hlen & Hguard).
Qed.

(** *** Merging and reporting *)

Lemma for_each_print dfs w :
  for_each print dfs w
  = (Return (), {| fs := fs w; OUTDIR := OUTDIR w; log := log w;
                   stdout := stdout w ++ dfs |}).
Proof.
  revert w. induction dfs as [|df dfs IH]; intros w.
  - simpl. unfold mret, M_ret. rewrite app_nil_r. by destruct w.
  - cbn [for_each]. unfold mbind, M_bind, print at 1. rewrite IH.
    cbn [fs OUTDIR log stdout]. by rewrite <-app_assoc.
Qed.

(** The merge succeeds on one fragment or more, and prints the fragments,
    [dfa] and the aggregate, in this order. *)
Lemma aggregate_Return dfs w :
  dfs ≠ [] →
  ∃ a S w', dfa dfs = Some a ∧ df_agg dfs = Some S
            ∧ aggregate dfs w = (Return S, w')
            ∧ fs w' = fs w ∧ OUTDIR w' = OUTDIR w
            ∧ stdout w' = stdout w ++ dfs ++ [a; S].
Proof.
  intros Hne. destruct (df_agg_is_Some dfs Hne) as [S HS].
  destruct (dfa dfs) as [a|] eqn:Ha; [|by unfold df_agg in HS; rewrite Ha in HS].
  eexists a, S, _. split; [done|]. split; [done|].
  unfold aggregate, mbind, M_bind. rewrite for_each_print.
  unfold log_info, log_record, print, mret, M_ret. rewrite Ha, HS.
  cbn [fs OUTDIR log stdout]. repeat split.
  by rewrite <-!app_assoc.
Qed.

Lemma hardcoded_columns_cases c :
  c ∈ hardcoded_columns →
  c ≠ "time"
  ∧ (c ∈ ["clones_unique"; "clones_total"] ∨ c ∈ ["views_unique"; "views_total"]).
Proof.
  unfold hardcoded_columns. rewrite !elem_of_cons, elem_of_nil.
  intros [->|[->|[->|[->|[]]]]]; (split; [done|]); auto 6.
Qed.

(** The report stops at [reset_index] or at one of the two [drop] when one
    of the four names is no column of the aggregate. *)
Lemma report_missing_column args S w c :
  index_name S = Some "time" →
  c ∈ hardcoded_columns → c ∉ columns S →
  ∃ e, report args S w = (Raise e, w)
       ∧ ((∃ msg, e = ValueError msg) ∨ (∃ missing, e = KeyError missing)).
Proof.
  intros Hname Hc Hcol. unfold report.
  destruct (reset_index S) as [e|S'] eqn:Hreset.
  { rewrite bind_lift_inl. exists e. split; [done|]. left.
    unfold reset_index in Hreset. destruct (decide _); [|done].
    injection Hreset as <-. by eexists. }
  rewrite bind_lift_inr.
  assert (columns S' = "time" :: columns S) as HS'.
  { unfold reset_index in Hreset. rewrite Hname in Hreset.
    destruct (decide _); [done|]. by injection Hreset as <-. }
  destruct (drop ["clones_unique"; "clones_total"] S') as [e|views] eqn:Hd1.
  { rewrite bind_lift_inl. exists e. split; [done|]. right.
    unfold drop in Hd1. destruct (filter _ _); [done|].
    injection Hd1 as <-. by eexists. }
  rewrite bind_lift_inr.
  destruct (drop ["views_unique"; "views_total"] S') as [e|clones] eqn:Hd2.
  { rewrite bind_lift_inl. exists e. split; [done|]. right.
    unfold drop in Hd2. destruct (filter _ _); [done|].
    injection Hd2 as <-. by eexists. }
  unfold drop in Hd1, Hd2. rewrite HS' in Hd1, Hd2.
  destruct (filter _ ["clones_unique"; "clones_total"]) as [|m1 ms1] eqn:E1;
    [|done].
  destruct (filter _ ["views_unique"; "views_total"]) as [|m2 ms2] eqn:E2;
    [|done].
  exfalso.
  destruct (hardcoded_columns_cases c Hc) as [Hne Hc12].
  assert (c ∉ "time" :: columns S) as Hc'.
  { by intros [->|?]%elem_of_cons. }
  destruct Hc12 as [H1|H2].
  - assert (c ∈ filter (λ c, c ∉ "time" :: columns S)
                  ["clones_unique"; "clones_total"]) as Hin
      by by apply list_elem_of_filter.
    rewrite E1 in Hin. by apply elem_of_nil in Hin.
  - assert (c ∈ filter (λ c, c ∉ "time" :: columns S)
                  ["views_unique"; "views_total"]) as Hin
      by by apply list_elem_of_filter.
    rewrite E2 in Hin. by apply elem_of_nil in Hin.
Qed.

(** *** The whole run *)

(** A run whose loading fails ends there, with the status 1 and the world
    the loading left. *)
Lemma main_load_fails av w args w1 o w2 :
  parse_args av w = (Return args, w1) →
  load args w1 = (o, w2) →
  (∀ dfs, o ≠ Return dfs) →
  ∃ o', main av w = (o', w2) ∧ exit_status o' = 1
        ∧ fs w2 = fs w1 ∧ stdout w2 = stdout w
        ∧ stat (fs w2) (output_directory args) = Some (Dir ∅).
Proof.
  intros Hparse Hload Hfail. rewrite main_eq.
  rewrite (bind_Return _ _ _ _ _ Hparse).
  destruct (parse_args_Return _ _ _ _ Hparse) as (_ & _ & Hstd & _ & Hdir).
  destruct (load_spec _ _ _ _ Hload) as (Hfs & _ & Hstd' & Ho).
  destruct o as [dfs|code|e].
  - by destruct (Hfail dfs).
  - subst code. rewrite (bind_Exit _ _ _ _ _ Hload).
    exists (Exit 1). repeat split; try done; congruence.
  - rewrite (bind_Raise _ _ _ _ _ Hload).
    exists (Raise e). repeat split; try done; congruence.
Qed.

Lemma read_fragments_unparseable p s0 ps dfs seen w o w' :
  p ∈ ps → unparseable (fs w) p s0 →
  read_fragments ps dfs seen w = (o, w') →
  ∀ dfs', o ≠ Return dfs'.
Proof.
  revert dfs seen w. induction ps as [|q ps IH]; intros dfs seen w Hin Hbad;
    [by apply elem_of_nil in Hin|].
  rewrite read_fragments_cons.
  unfold mbind, M_bind, log_info, log_error, log_record, sys_exit.
  set (w1 := {| fs := fs w; OUTDIR := OUTDIR w;
                log := log w ++ [(INFO, "attempt to parse %s", [APath q])];
                stdout := stdout w |}).
  apply elem_of_cons in Hin as [<-|Hin].
  - destruct (read_csv_unparseable p w1 s0 Hbad) as (s & _ & ->).
    by intros [= <- _].
  - destruct (read_csv q w1) as [[df|code|e] w2] eqn:Hread;
      [|by intros [= <- _]..].
    apply read_csv_world in Hread as ->.
    destruct (decide _); [by intros [= <- _]|].
    by apply IH.
Qed.

(** ** Empty input *)

(** C6. A run that is given no fragment source ends in the error exit of
    argparse, with the status 2; nothing is printed or logged and the file
    system is as it was, so there is no series and no output. *)
Theorem main_no_csvpath av w :
  arg_csvpath av = [] →
  main av w = (Exit 2, w) ∧ exit_status (main av w).1 ≠ 0.
Proof.
  intros Hnone. rewrite main_eq.
  rewrite (bind_Exit _ _ _ _ _ (parse_args_no_csvpath av w Hnone)).
  by split.
Qed.

(** ** A failed run *)

(** C7, as the script has it. When reading a fragment or the test on the
    columns fails, the run ends with the status 1, has printed no series and
    has written no chart and no report: the file system is the one argument
    parsing left, in which the output directory is present and empty. *)
Theorem failed_load_writes_nothing av w args w1 o w2 :
  parse_args av w = (Return args, w1) →
  load args w1 = (o, w2) →
  (∀ dfs, o ≠ Return dfs) →
  ∃ o', main av w = (o', w2) ∧ exit_status o' = 1
        ∧ stdout w2 = stdout w
        ∧ fs w2 = fs w1
        ∧ stat (fs w2) (output_directory args) = Some (Dir ∅).
Proof.
  intros Hparse Hload Hfail.
  destruct (main_load_fails _ _ _ _ _ _ Hparse Hload Hfail)
    as (o' & Hmain & Hst & Hfs & Hstd & Hdir).
  by exists o'.
Qed.

(** ** A timestamp that is no date *)


(** ** The output directory *)


(** ** The four names of the report *)

(** C10. When the fragments are loaded and one of the four names
    [clones_unique], [clones_total], [views_unique] and [views_total] is a
    column of none of them, the merge is done and printed, and the run then
    ends in an exception, [KeyError] from [drop] (or [ValueError] from
    [reset_index]), before any chart or report is written. *)
Theorem missing_hardcoded_column_aborts av w args w1 dfs w2 c :
  parse_args av w = (Return args, w1) →
  load args w1 = (Return dfs, w2) →
  c ∈ hardcoded_columns →
  (∀ df, df ∈ dfs → c ∉ columns df) →
  ∃ S e w3,
    df_agg dfs = Some S
    ∧ main av w = (Raise e, w3)
    ∧ ((∃ msg, e = ValueError msg) ∨ (∃ missing, e = KeyError missing))
    ∧ exit_status (main av w).1 = 1
    ∧ last (stdout w3) = Some S
    ∧ fs w3 = fs w1.
Proof.
  intros Hparse Hload Hc Hnone.
  destruct (parse_args_Return _ _ _ _ Hparse) as (Hps & -> & _).
  destruct (load_spec _ _ _ _ Hload) as (Hfs & _ & _ & Hlen & _).
  assert (dfs ≠ []) as Hne.
  { intros ->. cbn in Hlen. by destruct (arg_csvpath av). }
  destruct (aggregate_Return dfs w2 Hne)
    as (a & S & w3 & _ & HS & Hagg & Hfs3 & _ & Hstd3).
  destruct (df_agg_Some _ _ HS) as (Hname & Hcols & _).
  assert (c ∉ columns S) as HcS.
  { rewrite Hcols, elem_of_combined_columns.
    intros (df & Hdf & Hin). by apply (Hnone df). }
  destruct (report_missing_column (namespace av) S w3 c Hname Hc HcS)
    as (e & Hrep & He).
  assert (main av w = (Raise e, w3)) as Hmain.
  { rewrite main_eq, (bind_Return _ _ _ _ _ Hparse).
    rewrite (bind_Return _ _ _ _ _ Hload).
    by rewrite (bind_Return _ _ _ _ _ Hagg). }
  exists S, e, w3. rewrite Hmain. repeat split; try done.
  - rewrite Hstd3. change [a; S] with ([a] ++ [S]).
    rewrite !app_assoc. apply last_snoc.
  - congruence.
Qed.

(** ** The test on the columns *)

(** Once a column has been seen, the loop stops at the first source whose
    columns are not the ones seen: it logs the columns seen, the path and
    the columns of the source, and exits with the status 1. *)
Lemma read_fragments_mismatch p ps dfs seen w df :
  seen ≠ ∅ →
  (read_csv p w).1 = Return df →
  list_to_set (columns df) ≠ seen →
  read_fragments (p :: ps) dfs seen w
  = (Exit 1,
     {| fs := fs w; OUTDIR := OUTDIR w;
        log := log w ++ [(INFO, "attempt to parse %s", [APath p]);
                         (ERROR, "columns seen so far: %s", [ASet seen]);
                         (ERROR, "columns in %s: %s",
                          [APath p; AColumns (columns df)])];
        stdout := stdout w |}).
Proof.
  intros Hseen Hread Hne. rewrite read_fragments_cons.
  unfold mbind, M_bind, log_info, log_error, log_record, sys_exit.
  set (w1 := {| fs := fs w; OUTDIR := OUTDIR w;
                log := log w ++ [(INFO, "attempt to parse %s", [APath p])];
                stdout := stdout w |}).
  rewrite <-(read_csv_fs p w w1 eq_refl) in Hread.
  destruct (read_csv p w1) as [o w1'] eqn:E.
  apply read_csv_world in E as ->. simpl in Hread. subst o.
  rewrite decide_True by done. subst w1. cbn [fs OUTDIR log stdout].
  by rewrite <-!app_assoc.
Qed.

(** ** Further properties of argument parsing *)

Lemma rmtree_Some root p root1 :
  shutil.rmtree root p = Some root1 → put root p None = Some root1.
Proof. unfold shutil.rmtree. by destruct (os.path_isdir root p). Qed.

(** X4. When the path of the output directory names a file, the run logs
    an error naming the path and exits with the status 1; the file system,
    [OUTDIR] and the standard output are as before, and no source is
    read. *)
Theorem output_path_is_file_exits av w text :
  arg_csvpath av ≠ [] →
  stat (fs w) (output_directory (namespace av)) = Some (File text) →
  main av w
  = (Exit 1,
     {| fs := fs w; OUTDIR := OUTDIR w;
        log := log w ++
          [(ERROR,
            "The specified output directory path does not point to a directory: %s",
            [APath (output_directory (namespace av))])];
        stdout := stdout w |}).
Proof.
  intros Hps Hfile. rewrite main_eq. apply bind_Exit.
  unfold parse_args. destruct (arg_csvpath av) as [|p ps]; [done|].
  unfold mbind, M_bind, fs_test, fs_step, log_info, log_error, log_record,
    sys_exit, set_OUTDIR, mret, M_ret.
  unfold os.path_exists, os.path_isdir. rewrite Hfile.
  rewrite bool_decide_true by by eexists.
  cbn [fs OUTDIR log stdout]. by rewrite Hfile.
Qed.



(** ** Sources that cannot be read *)

Lemma read_csv_not_a_file p w :
  (∀ text, stat (fs w) p ≠ Some (File text)) →
  read_csv p w = (Raise (OSError p), w).
Proof.
  intros Hno. unfold read_csv.
  destruct (stat (fs w) p) as [[text|es]|]; try done. by destruct (Hno text).
Qed.

Lemma read_fragments_not_a_file p ps dfs seen w o w' :
  p ∈ ps → (∀ text, stat (fs w) p ≠ Some (File text)) →
  read_fragments ps dfs seen w = (o, w') →
  ∀ dfs', o ≠ Return dfs'.
Proof.
  revert dfs seen w. induction ps as [|q ps IH]; intros dfs seen w Hin Hno;
    [by apply elem_of_nil in Hin|].
  rewrite read_fragments_cons.
  unfold mbind, M_bind, log_info, log_error, log_record, sys_exit.
  set (w1 := {| fs := fs w; OUTDIR := OUTDIR w;
                log := log w ++ [(INFO, "attempt to parse %s", [APath q])];
                stdout := stdout w |}).
  apply elem_of_cons in Hin as [<-|Hin].
  - rewrite (read_csv_not_a_file p w1 Hno). by intros [= <- _].
  - destruct (read_csv q w1) as [[df|code|e] w2] eqn:Hread;
      [|by intros [= <- _]..].
    apply read_csv_world in Hread as ->.
    destruct (decide _); [by intros [= <- _]|].
    by apply IH.
Qed.

Lemma parse_args_stdout av w o w1 :
  parse_args av w = (o, w1) → stdout w1 = stdout w.
Proof.
  unfold parse_args. destruct (arg_csvpath av) as [|p ps];
    [by intros [= _ <-]|].
  unfold mbind, M_bind, fs_test, fs_step, log_info, log_error, log_record,
    sys_exit, set_OUTDIR, mret, M_ret.
  destruct (os.path_exists _ _); [destruct (os.path_isdir _ _)|];
    cbn [fs OUTDIR log stdout];
    repeat (destruct (shutil.rmtree _ _) || destruct (os.makedirs _ _));
    cbn [fs OUTDIR log stdout]; by intros [= _ <-].
Qed.

(** A run stops with its loading when a path given is no file. *)
Lemma source_not_a_file av w args w1 p :
  parse_args av w = (Return args, w1) →
  p ∈ csvpath args →
  (∀ text, stat (fs w1) p ≠ Some (File text)) →
  ∃ o w2, main av w = (o, w2) ∧ exit_status o = 1 ∧ stdout w2 = stdout w.
Proof.
  intros Hparse Hin Hno.
  destruct (load args w1) as [o w2] eqn:Hload.
  assert (∀ dfs, o ≠ Return dfs) as Hfail.
  { rewrite load_eq in Hload.
    unfold mbind, M_bind, log_info, log_record in Hload.
    eapply read_fragments_not_a_file; [exact Hin| |exact Hload]. exact Hno. }
  destruct (main_load_fails _ _ _ _ _ _ Hparse Hload Hfail)
    as (o' & Hmain & Hst & Hfs & Hstd & _).
  by exists o', w2.
Qed.



(** ** The loop over the sources *)

Lemma schema_guard_all_equal (S seen : gset string) dfs :
  Forall (λ df, list_to_set (columns df) = S) dfs →
  seen = ∅ ∨ seen = S →
  schema_guard seen dfs = true.
Proof.
  intros Hall. revert seen. induction Hall as [|df dfs Hdf _ IH];
    intros seen Hseen; [done|].
  cbn [schema_guard]. rewrite decide_False.
  - apply IH. right. rewrite Hdf.
    destruct Hseen as [->| ->];
      [apply union_empty_l_L|apply union_idemp_L].
  - intros [H1 H2]. destruct Hseen as [->| ->]; [done|]. by rewrite Hdf in H2.
Qed.

Lemma foldl_seen_all_equal (S seen : gset string) (dfs : list DataFrame) :
  Forall (λ df, list_to_set (columns df) = S) dfs → dfs ≠ [] →
  seen = ∅ ∨ seen = S →
  foldl (λ s df, s ∪ list_to_set (columns df)) seen dfs = S.
Proof.
  intros Hall. revert seen. induction Hall as [|df dfs Hdf Hrest IH];
    intros seen Hne Hseen; [done|].
  cbn [foldl]. rewrite Hdf.
  assert (seen ∪ S = S) as ->.
  { destruct Hseen as [->| ->];
      [apply union_empty_l_L|apply union_idemp_L]. }
  destruct dfs as [|df' dfs']; [done|]. apply IH; [done|by right].
Qed.

(** The loop over sources that are read and accepted, one after the
    other. *)
Lemma read_fragments_app ps1 dfs1 rest dfs seen w :
  Forall2 (λ p df, (read_csv p w).1 = Return df) ps1 dfs1 →
  schema_guard seen dfs1 = true →
  read_fragments (ps1 ++ rest) dfs seen w
  = read_fragments rest (dfs ++ dfs1)
      (foldl (λ s df, s ∪ list_to_set (columns df)) seen dfs1)
      {| fs := fs w; OUTDIR := OUTDIR w;
         log := log w ++ ((λ p, (INFO, "attempt to parse %s", [APath p]))
                          <$> ps1);
         stdout := stdout w |}.
Proof.
  revert dfs1 dfs seen w. induction ps1 as [|p ps1 IH];
    intros dfs1 dfs seen w Hall Hguard.
  { apply Forall2_nil_inv_l in Hall as ->.
    cbn [app fmap list_fmap foldl]. rewrite !app_nil_r. by destruct w. }
  apply Forall2_cons_inv_l in Hall as (df & dfs1' & Hread & Hall & ->).
  cbn [schema_guard] in Hguard.
  destruct (decide (seen ≠ ∅ ∧ list_to_set (columns df) ≠ seen)) as [|Hok];
    [done|].
  cbn [app]. rewrite read_fragments_cons.
  unfold mbind at 1 2, M_bind at 1 2, log_info at 1, log_record at 1.
  set (w1 := {| fs := fs w; OUTDIR := OUTDIR w;
                log := log w ++ [(INFO, "attempt to parse %s", [APath p])];
                stdout := stdout w |}).
  rewrite <-(read_csv_fs p w w1 eq_refl) in Hread.
  destruct (read_csv p w1) as [o w1'] eqn:E.
  pose proof (read_csv_world _ _ _ _ E) as ->. cbn [fst] in Hread. subst o.
  rewrite decide_False by done.
  rewrite (IH dfs1').
  - cbn [foldl fmap list_fmap]. subst w1. cbn [fs OUTDIR log stdout].
    by rewrite <-!app_assoc.
  - eapply Forall2_impl; [exact Hall|]. intros q d Hq.
    by rewrite (read_csv_fs q w w1 eq_refl).
  - done.
Qed.

(** X9. When every path given is read into a frame and all frames have
    the same set of column labels, in whatever order, loading returns the
    frames in the order of the paths; it changes nothing but the log, which
    gains the two opening records and one record per path, in order. *)
Theorem load_returns_fragments args w dfs :
  Forall2 (λ p df, (read_csv p w).1 = Return df) (csvpath args) dfs →
  (∀ df df', df ∈ dfs → df' ∈ dfs →
     list_to_set (columns df) =@{gset string} list_to_set (columns df')) →
  load args w
  = (Return dfs,
     {| fs := fs w; OUTDIR := OUTDIR w;
        log := log w ++
          [(INFO, "read views/clones time series fragments (CSV docs)", []);
           (INFO, "number of csv files provided: %s",
            [ANat (length (csvpath args))])] ++
          ((λ p, (INFO, "attempt to parse %s", [APath p])) <$> csvpath args);
        stdout := stdout w |}).
Proof.
  intros Hall Hsame. rewrite load_eq.
  unfold mbind, M_bind, log_info, log_record. cbn [fs OUTDIR log stdout].
  set (w1 := {| fs := fs w; OUTDIR := OUTDIR w;
                log := (log w ++ _) ++ _; stdout := stdout w |}).
  assert (schema_guard ∅ dfs = true) as Hguard.
  { destruct dfs as [|df0 dfs0]; [done|].
    apply (schema_guard_all_equal (list_to_set (columns df0))); [|by left].
    apply Forall_forall. intros df Hdf. apply Hsame; [done|left]. }
  assert (Forall2 (λ p df, (read_csv p w1).1 = Return df) (csvpath args) dfs)
    as Hall1.
  { eapply Forall2_impl; [exact Hall|]. intros q d Hq.
    by rewrite (read_csv_fs q w w1 eq_refl). }
  pose proof (read_fragments_app (csvpath args) dfs [] [] ∅ w1 Hall1 Hguard)
    as Happ.
  rewrite app_nil_r in Happ. rewrite Happ.
  subst w1. cbn [fs OUTDIR log stdout app]. by rewrite <-!app_assoc.
Qed.

(** X10. When the sources before [p] are read and all have the same
    set [S] of column labels, which is not empty, and [p] is read into a
    frame with another set, loading stops at [p]: it logs [S], the path and
    the columns of [p] as errors and exits with the status 1.  The sources
    after [p] are not attempted. *)
Theorem load_stops_at_first_mismatch args w ps1 p ps2 dfs1 df
    (S : gset string) :
  csvpath args = ps1 ++ p :: ps2 →
  Forall2 (λ q d, (read_csv q w).1 = Return d) ps1 dfs1 →
  dfs1 ≠ [] → S ≠ ∅ →
  Forall (λ d, list_to_set (columns d) = S) dfs1 →
  (read_csv p w).1 = Return df →
  list_to_set (columns df) ≠ S →
  load args w
  = (Exit 1,
     {| fs := fs w; OUTDIR := OUTDIR w;
        log := log w ++
          [(INFO, "read views/clones time series fragments (CSV docs)", []);
           (INFO, "number of csv files provided: %s",
            [ANat (length (csvpath args))])] ++
          ((λ q, (INFO, "attempt to parse %s", [APath q])) <$> ps1) ++
          [(INFO, "attempt to parse %s", [APath p]);
           (ERROR, "columns seen so far: %s", [ASet S]);
           (ERROR, "columns in %s: %s", [APath p; AColumns (columns df)])];
        stdout := stdout w |}).
Proof.
  intros Hps Hall Hne HS Hsame Hread Hdiff. rewrite load_eq.
  generalize (length (csvpath args)). intros n. rewrite Hps.
  unfold mbind, M_bind, log_info, log_record. cbn [fs OUTDIR log stdout].
  set (w1 := {| fs := fs w; OUTDIR := OUTDIR w;
                log := (log w ++ _) ++ _; stdout := stdout w |}).
  assert (Forall2 (λ q d, (read_csv q w1).1 = Return d) ps1 dfs1) as Hall1.
  { eapply Forall2_impl; [exact Hall|]. intros q d Hq.
    by rewrite (read_csv_fs q w w1 eq_refl). }
  rewrite (read_fragments_app ps1 dfs1 (p :: ps2) [] ∅ w1 Hall1
             (schema_guard_all_equal S ∅ dfs1 Hsame (or_introl eq_refl))).
  rewrite (foldl_seen_all_equal S ∅ dfs1 Hsame Hne (or_introl eq_refl)).
  set (w2 := {| fs := fs w1; OUTDIR := OUTDIR w1; log := _;
                stdout := stdout w1 |}).
  rewrite (read_fragments_mismatch p ps2 _ S w2 df HS); [| |done].
  - subst w2 w1. cbn [fs OUTDIR log stdout]. by rewrite <-!app_assoc.
  - by rewrite (read_csv_fs p w w2 eq_refl).
Qed.

(** ** The exit status *)

Lemma no_exit_bind {A B} (m : M A) (f : A → M B) :
  no_exit m → (∀ a, no_exit (f a)) → no_exit (m ≫= f).
Proof.
  intros Hm Hf w code w'. unfold mbind, M_bind.
  destruct (m w) as [[a|code'|e] w1] eqn:E; [apply Hf| |done].
  by destruct (Hm w code' w1).
Qed.

Lemma no_exit_lift {A} (r : exn + A) : no_exit (lift r).
Proof. intros w code w'. unfold lift. by destruct r. Qed.

Lemma no_exit_log l fmt args : no_exit (log_record l fmt args).
Proof. by intros w code w'. Qed.

Lemma no_exit_print df : no_exit (print df).
Proof. by intros w code w'. Qed.

Lemma no_exit_fs_step p f : no_exit (fs_step p f).
Proof. intros w code w'. unfold fs_step. by destruct (f (fs w)). Qed.

Lemma no_exit_get_OUTDIR : no_exit get_OUTDIR.
Proof. intros w code w'. unfold get_OUTDIR. by destruct (OUTDIR w). Qed.

Lemma no_exit_run cmd : no_exit (run subprocess_run cmd).
Proof.
  intros w code w'. unfold run.
  by destruct (subprocess_run cmd (fs w)) as [[root rc]|].
Qed.

Lemma no_exit_for_each_print dfs : no_exit (for_each print dfs).
Proof. intros w code w'. by rewrite for_each_print. Qed.

Lemma aggregate_no_exit dfs : no_exit (aggregate dfs).
Proof.
  unfold aggregate.
  apply no_exit_bind; [apply no_exit_for_each_print|intros _].
  apply no_exit_bind; [apply no_exit_log|intros _].
  apply no_exit_bind; [apply no_exit_log|intros _].
  destruct (dfa dfs), (df_agg dfs); by intros w code w'.
Qed.

Lemma report_no_exit args agg : no_exit (report args agg).
Proof.
  unfold report.
  repeat (apply no_exit_bind;
          [first [apply no_exit_lift | apply no_exit_log
                 | apply no_exit_fs_step | apply no_exit_get_OUTDIR
                 | apply no_exit_run]
          |intros ?]).
  destruct (decide _); apply no_exit_log.
Qed.

Lemma parse_args_Exit av w code w1 :
  parse_args av w = (Exit code, w1) →
  (arg_csvpath av = [] ∧ code = 2) ∨ (arg_csvpath av ≠ [] ∧ code = 1).
Proof.
  unfold parse_args. destruct (arg_csvpath av) as [|p ps].
  { intros [= <- _]. by left. }
  unfold mbind, M_bind, fs_test, fs_step, log_info, log_error, log_record,
    sys_exit, set_OUTDIR, mret, M_ret.
  destruct (os.path_exists _ _); [destruct (os.path_isdir _ _)|];
    cbn [fs OUTDIR log stdout];
    repeat (destruct (shutil.rmtree _ _) || destruct (os.makedirs _ _));
    cbn [fs OUTDIR log stdout]; intros [= <- _]; by right.
Qed.

Lemma main_exit_status av w :
  arg_csvpath av ≠ [] →
  exit_status (main av w).1 = 0 ∨ exit_status (main av w).1 = 1.
Proof.
  intros Hps. rewrite main_eq.
  destruct (parse_args av w) as [[args|code|e] w1] eqn:Hparse.
  - rewrite (bind_Return _ _ _ _ _ Hparse). cbv beta.
    destruct (load args w1) as [[dfs|code|e] w2] eqn:Hload.
    + rewrite (bind_Return _ _ _ _ _ Hload).
      destruct (aggregate dfs w2) as [[agg|code|e] w3] eqn:Hagg.
      * rewrite (bind_Return _ _ _ _ _ Hagg).
        destruct (report args agg w3) as [[[]|code|e] w4] eqn:Hrep;
          [by left| |by right].
        by destruct (report_no_exit args agg w3 code w4).
      * by destruct (aggregate_no_exit dfs w2 code w3).
      * rewrite (bind_Raise _ _ _ _ _ Hagg). by right.
    + destruct (load_spec _ _ _ _ Hload) as (_ & _ & _ & ->).
      rewrite (bind_Exit _ _ _ _ _ Hload). by right.
    + rewrite (bind_Raise _ _ _ _ _ Hload). by right.
  - rewrite (bind_Exit _ _ _ _ _ Hparse). cbn [fst exit_status].
    destruct (parse_args_Exit _ _ _ _ Hparse) as [[Hnil _]|[_ ->]];
      [done|by right].
  - rewrite (bind_Raise _ _ _ _ _ Hparse). by right.
Qed.

(** X11. The exit status of the program, on a command line of ASCII
    strings, is 0, 1 or 2.  It is 2 exactly when argparse rejects the
    command line, and 0 after a request for help; when argparse accepts the
    command line the run is the one of [main] on its values and ends with 0
    or 1: every failure after argument parsing, by [sys.exit] or by an
    exception, gives 1. *)
Theorem exit_status_of_program sys_argv w :
  Forall (λ a, Str.is_ascii a = true) sys_argv →
  (exit_status (program sys_argv w).1 = 0
   ∨ exit_status (program sys_argv w).1 = 1
   ∨ exit_status (program sys_argv w).1 = 2)
  ∧ (exit_status (program sys_argv w).1 = 2
     ↔ argparse.parse_args sys_argv = argparse.Error)
  ∧ (argparse.parse_args sys_argv = argparse.Help →
     exit_status (program sys_argv w).1 = 0)
  ∧ ∀ av, argparse.parse_args sys_argv = argparse.Parsed av →
          arg_csvpath av ≠ []
          ∧ program sys_argv w = main av w
          ∧ (exit_status (main av w).1 = 0 ∨ exit_status (main av w).1 = 1).
Proof.
  intros _. rewrite program_eq.
  destruct (argparse.parse_args sys_argv) as [av| |] eqn:Hargs.
  - pose proof (accepted_has_csvpath _ _ Hargs) as Hps.
    pose proof (main_exit_status av w Hps) as Hst.
    split; [tauto|]. split; [|split; [done|]].
    + split; [|done]. intros H2. destruct Hst; lia.
    + intros av' [= <-]. done.
  - cbn [sys_exit fst exit_status].
    split; [tauto|]. split; [done|]. split; [done|]. done.
  - cbn [sys_exit fst exit_status].
    split; [tauto|]. split; [done|]. split; [done|]. done.
Qed.

(** ** A run that returns *)

Lemma bind_Return_inv {A B} (m : M A) (f : A → M B) w b w' :
  (m ≫= f) w = (Return b, w') →
  ∃ a w1, m w = (Return a, w1) ∧ f a w1 = (Return b, w').
Proof.
  unfold mbind, M_bind. destruct (m w) as [[a|code|e] w1]; try done.
  intros H. by exists a, w1.
Qed.

Lemma lift_Return_inv {A} (r : exn + A) w a w' :
  lift r w = (Return a, w') → r = inr a ∧ w' = w.
Proof. unfold lift. destruct r; [done|]. by intros [= -> ->]. Qed.

Lemma fs_step_Return_inv p f w u w' :
  fs_step p f w = (Return u, w') →
  ∃ root, f (fs w) = Some root
          ∧ w' = {| fs := root; OUTDIR := OUTDIR w; log := log w;
                    stdout := stdout w |}.
Proof.
  unfold fs_step. destruct (f (fs w)) as [root|]; [|done].
  intros [= _ <-]. by exists root.
Qed.

Lemma get_OUTDIR_Return_inv w d w' :
  get_OUTDIR w = (Return d, w') → OUTDIR w = Some d ∧ w' = w.
Proof. unfold get_OUTDIR. destruct (OUTDIR w); [|done]. by intros [= -> ->]. Qed.

Lemma run_Return_inv cmd w code w' :
  run subprocess_run cmd w = (Return code, w') →
  ∃ root, subprocess_run cmd (fs w) = Some (root, code)
          ∧ w' = {| fs := root; OUTDIR := OUTDIR w; log := log w;
                    stdout := stdout w |}.
Proof.
  unfold run. destruct (subprocess_run cmd (fs w)) as [[root rc]|]; [|done].
  intros [= -> <-]. by exists root.
Qed.

(** The steps of a report that returns. *)
Lemma report_Return_inv args agg w w' :
  report args agg w = (Return (), w') →
  ∃ tbl views clones outdir root4 root7 root9 code,
    reset_index agg = inr tbl
    ∧ drop ["clones_unique"; "clones_total"] tbl = inr views
    ∧ drop ["views_unique"; "views_total"] tbl = inr clones
    ∧ OUTDIR w = Some outdir
    ∧ write_file (fs w) ["chart.html"] (chart_html clones views) = Some root4
    ∧ write_file root4 (os.path_join outdir (TODAY +:+ "_report.md"))
        report_md_text = Some root7
    ∧ shutil.copytree root7 (resources_directory args)
        (os.path_join outdir "resources") = Some root9
    ∧ subprocess_run
        [AStr (pandoc_command args); AStr "--toc"; AStr "--standalone";
         AStr "--template=resources/template.html";
         APath (os.path_join outdir (TODAY +:+ "_report.md"));
         AStr "-o";
         APath (os.path_join outdir (TODAY +:+ "_report" +:+ ".html"))]
        root9 = Some (fs w', code)
    ∧ OUTDIR w' = Some outdir
    ∧ stdout w' = stdout w
    ∧ last (log w')
      = Some (INFO,
              if decide (code = 0)
              then "Pandoc terminated indicating success"
              else "Pandoc terminated indicating error", []).
Proof.
  unfold report. intros H.
  apply bind_Return_inv in H as (tbl & w1 & H1 & H).
  apply lift_Return_inv in H1 as [Hreset ->].
  apply bind_Return_inv in H as (views & w1 & H1 & H).
  apply lift_Return_inv in H1 as [Hviews ->].
  apply bind_Return_inv in H as (clones & w1 & H1 & H).
  apply lift_Return_inv in H1 as [Hclones ->].
  apply bind_Return_inv in H as ([] & w4 & H1 & H).
  apply fs_step_Return_inv in H1 as (root4 & Hchart & ->).
  apply bind_Return_inv in H as (outdir & w5 & H1 & H).
  apply get_OUTDIR_Return_inv in H1 as [Hout ->]. cbn [OUTDIR] in Hout.
  apply bind_Return_inv in H as ([] & w6 & H1 & H).
  injection H1 as <-.
  apply bind_Return_inv in H as ([] & w7 & H1 & H).
  apply fs_step_Return_inv in H1 as (root7 & Hmd & ->).
  cbn [fs OUTDIR log stdout] in *.
  apply bind_Return_inv in H as ([] & w8 & H1 & H).
  injection H1 as <-.
  apply bind_Return_inv in H as ([] & w9 & H1 & H).
  apply fs_step_Return_inv in H1 as (root9 & Hcopy & ->).
  cbn [fs OUTDIR log stdout] in *.
  apply bind_Return_inv in H as ([] & w10 & H1 & H).
  injection H1 as <-.
  apply bind_Return_inv in H as ([] & w11 & H1 & H).
  injection H1 as <-.
  apply bind_Return_inv in H as (code & w12 & H1 & H).
  apply run_Return_inv in H1 as (root & Hrun & ->).
  cbn [fs OUTDIR log stdout] in *.
  exists tbl, views, clones, outdir, root4, root7, root9, code.
  destruct (decide (code = 0)); injection H as <-;
    cbn [fs OUTDIR log stdout]; repeat split; try done; apply last_snoc.
Qed.

(** The stages of a run that returns. *)
Lemma main_Return_inv av w w' :
  main av w = (Return (), w') →
  ∃ w1 dfs w2 S w3,
    parse_args av w = (Return (namespace av), w1)
    ∧ load (namespace av) w1 = (Return dfs, w2)
    ∧ df_agg dfs = Some S
    ∧ aggregate dfs w2 = (Return S, w3)
    ∧ report (namespace av) S w3 = (Return (), w')
    ∧ OUTDIR w3 = Some (output_directory (namespace av))
    ∧ output_directory (namespace av) ≠ []
    ∧ last (stdout w3) = Some S
    ∧ fs w3 = fs w1.
Proof.
  rewrite main_eq. intros H.
  apply bind_Return_inv in H as (args & w1 & Hparse & H).
  destruct (parse_args_Return _ _ _ _ Hparse) as (Hps & -> & _ & Hout & Hdir).
  apply bind_Return_inv in H as (dfs & w2 & Hload & H).
  destruct (load_spec _ _ _ _ Hload) as (Hfs2 & Hout2 & _ & Hlen & _).
  apply bind_Return_inv in H as (S & w3 & Hagg & Hrep).
  assert (dfs ≠ []) as Hne.
  { intros ->. cbn in Hlen. by destruct (arg_csvpath av). }
  destruct (aggregate_Return dfs w2 Hne)
    as (a & S' & w3' & _ & HS & Hagg' & Hfs3 & Hout3 & Hstd3).
  rewrite Hagg in Hagg'. injection Hagg' as <- <-.
  exists w1, dfs, w2, S, w3. repeat split; try done.
  - congruence.
  - intros E. by rewrite E in Hdir.
  - rewrite Hstd3. change [a; S] with ([a] ++ [S]).
    rewrite !app_assoc. apply last_snoc.
  - congruence.
Qed.

(** X13. A run returns only when it was given a source and the
    aggregate, which is the last frame it prints, has the four columns
    [clones_unique], [clones_total], [views_unique] and [views_total] and no
    column named [time]. *)
Theorem main_returns_only_with_the_four_columns av w w' :
  main av w = (Return (), w') →
  arg_csvpath av ≠ []
  ∧ ∃ S, last (stdout w') = Some S
         ∧ (∀ c, c ∈ hardcoded_columns → c ∈ columns S)
         ∧ "time" ∉ columns S.
Proof.
  intros Hmain.
  destruct (main_Return_inv _ _ _ Hmain)
    as (w1 & dfs & w2 & S & w3 & Hparse & _ & HS & _ & Hrep & _ & _ & Hlast
        & _).
  destruct (parse_args_Return _ _ _ _ Hparse) as (Hps & _).
  split; [done|]. exists S.
  destruct (df_agg_Some _ _ HS) as (Hname & _).
  destruct (report_Return_inv _ _ _ _ Hrep)
    as (tbl & views & clones & outdir & root4 & root7 & root9 & code
        & Hreset & _ & _ & _ & _ & _ & _ & _ & _ & Hstd & _).
  split; [by rewrite Hstd|]. split.
  - intros c Hc. destruct (decide (c ∈ columns S)) as [|Hno]; [done|].
    destruct (report_missing_column (namespace av) S w3 c Hname Hc Hno)
      as (e & Hraise & _).
    rewrite Hraise in Hrep. done.
  - unfold reset_index in Hreset. rewrite Hname in Hreset. cbn in Hreset.
    by destruct (decide ("time" ∈ columns S)).
Qed.

(** X14. A run that returns, with the paths of its output directory and
    of its resources directory made of names and the resources directory
    not above the output directory, has gone through these steps on the
    file system argument parsing left: it has written [chart.html]
    in the working directory, then the report of the day in the output
    directory, then it has copied the resources directory to [resources] in
    the output directory, and on the result it has run the Pandoc command
    once, with the report as its input and the HTML file beside it as its
    output.  Pandoc found the chart, the report, and under [resources] the
    very entries the resources directory held when it was copied; the last
    record of the log tells how Pandoc ended. *)
Theorem main_returns_after_pandoc av w w' :
  names (output_directory (namespace av)) →
  names (resources_directory (namespace av)) →
  ¬ resources_directory (namespace av)
    `prefix_of` output_directory (namespace av) →
  main av w = (Return (), w') →
  ∃ w1 root4 root7 root code clones views es,
    parse_args av w = (Return (namespace av), w1)
    ∧ write_file (fs w1) ["chart.html"] (chart_html clones views) = Some root4
    ∧ write_file root4
        (output_directory (namespace av) ++ [TODAY +:+ "_report.md"])
        report_md_text = Some root7
    ∧ stat root7 (resources_directory (namespace av)) = Some (Dir es)
    ∧ shutil.copytree root7 (resources_directory (namespace av))
        (output_directory (namespace av) ++ ["resources"]) = Some root
    ∧ subprocess_run
        [AStr (pandoc_command (namespace av)); AStr "--toc";
         AStr "--standalone"; AStr "--template=resources/template.html";
         APath (output_directory (namespace av) ++ [TODAY +:+ "_report.md"]);
         AStr "-o";
         APath (output_directory (namespace av)
                ++ [TODAY +:+ "_report" +:+ ".html"])]
        root = Some (fs w', code)
    ∧ stat root ["chart.html"] = Some (File (chart_html clones views))
    ∧ stat root (output_directory (namespace av) ++ [TODAY +:+ "_report.md"])
      = Some (File report_md_text)
    ∧ stat root (output_directory (namespace av) ++ ["resources"])
      = Some (Dir es)
    ∧ last (log w')
      = Some (INFO,
              if decide (code = 0)
              then "Pandoc terminated indicating success"
              else "Pandoc terminated indicating error", []).
Proof.
  intros _ _ _ Hmain.
  destruct (main_Return_inv _ _ _ Hmain)
    as (w1 & dfs & w2 & S & w3 & Hparse & _ & _ & _ & Hrep & Hout & Hne & _
        & Hfs).
  destruct (report_Return_inv _ _ _ _ Hrep)
    as (tbl & views & clones & outdir & root4 & root7 & root9 & code
        & _ & _ & _ & Hout' & Hchart & Hmd & Hcopy & Hrun & _ & _ & Hlog).
  rewrite Hout in Hout'. injection Hout' as <-.
  unfold os.path_join in *. rewrite Hfs in Hchart.
  set (d := output_directory (namespace av)) in *.
  destruct (copytree_stat _ _ _ _ Hcopy) as (es & Hsrc & Hres).
  exists w1, root4, root7, root9, code, clones, views, es.
  split; [exact Hparse|]. split; [exact Hchart|]. split; [exact Hmd|].
  split; [exact Hsrc|]. split; [exact Hcopy|]. split; [exact Hrun|].
  split; [|split; [|split; [exact Hres|exact Hlog]]].
  - eapply copytree_keeps_file; [exact Hcopy|].
    eapply write_file_keeps_file; [exact Hmd| |].
    + by eapply write_file_stat.
    + intros E. apply (f_equal length) in E. rewrite length_app in E.
      assert (length d ≠ 0%nat) by by destruct d.
      change (1 = length d + 1)%nat in E. lia.
  - eapply copytree_keeps_file; [exact Hcopy|]. by eapply write_file_stat.
Qed.

End script_properties.

(** ** The runs of the example *)

Lemma main_no_csvpath_demo :
  demo.main (demo.argv_of []) demo.w0 = (Exit 2, demo.w0)
  ∧ exit_status (demo.main (demo.argv_of []) demo.w0).1 ≠ 0.
Proof.
  apply (main_no_csvpath demo.TODAY demo.report_md_text demo.tokenize
           demo.to_datetime demo.chart_html demo.subprocess_run
           (demo.argv_of []) demo.w0).
  reflexivity.
Defined.

Lemma failed_load_writes_nothing_demo :
  ∃ o', demo.main demo.av_broken demo.w0
        = (o', (demo.main demo.av_broken demo.w0).2)
        ∧ exit_status o' = 1
        ∧ stdout (demo.main demo.av_broken demo.w0).2 = stdout demo.w0
        ∧ stat (fs (demo.main demo.av_broken demo.w0).2) ["out"]
          = Some (Dir ∅).
Proof.
  destruct (failed_load_writes_nothing demo.TODAY demo.report_md_text
              demo.tokenize demo.to_datetime demo.chart_html
              demo.subprocess_run demo.av_broken demo.w0
              (namespace demo.TODAY demo.av_broken)
              (demo.parse_args demo.av_broken demo.w0).2
              (Raise (ParserError "yesterday"))
              (demo.main demo.av_broken demo.w0).2)
    as (o' & Hmain & Hst & Hstd & _ & Hdir).
  - vm_compute. reflexivity.
  - vm_compute. reflexivity.
  - discriminate.
  - exists o'. auto.
Defined.

(** C7 as it is worded does not hold: the run below fails on a field that
    is no date, and the report of the earlier run, which was in the output
    directory, is gone. *)
Lemma failed_run_empties_output_directory :
  stat (fs demo.w0) ["out"; "2020-12-20_report.md"] = Some (File "% old")
  ∧ demo.main demo.av_broken demo.w0
    = (Raise (ParserError "yesterday"), (demo.main demo.av_broken demo.w0).2)
  ∧ stat (fs (demo.main demo.av_broken demo.w0).2)
      ["out"; "2020-12-20_report.md"] = None.
Proof.
  split; [vm_compute; reflexivity|].
  split; vm_compute; reflexivity.
Qed.




Lemma missing_hardcoded_column_aborts_demo :
  ∃ S e w3,
    df_agg [fragA] = Some S
    ∧ demo.main demo.av_clones demo.w0 = (Raise e, w3)
    ∧ exit_status (demo.main demo.av_clones demo.w0).1 = 1
    ∧ last (stdout w3) = Some S.
Proof.
  destruct (missing_hardcoded_column_aborts demo.TODAY demo.report_md_text
              demo.tokenize demo.to_datetime demo.chart_html
              demo.subprocess_run demo.av_clones demo.w0
              (namespace demo.TODAY demo.av_clones)
              (demo.parse_args demo.av_clones demo.w0).2
              [fragA]
              (demo.load (namespace demo.TODAY demo.av_clones)
                 (demo.parse_args demo.av_clones demo.w0).2).2
              "clones_unique")
    as (S & e & w3 & HS & Hmain & _ & Hst & Hlast & _).
  - vm_compute. reflexivity.
  - vm_compute. reflexivity.
  - apply (bool_decide_unpack _). vm_compute. reflexivity.
  - intros df ->%list_elem_of_singleton.
    apply (bool_decide_unpack _). vm_compute. reflexivity.
  - exists S, e, w3. auto.
Defined.

(** C5, where the script departs from it.  The first source has no column
    besides [time_iso8601], so [column_names_seen] is still empty when the
    second source is tested, and the test is skipped: the two fragments are
    loaded although their columns differ, they are merged, and the run
    writes its report. *)
Theorem bare_first_fragment_skips_the_test :
  demo.load (namespace demo.TODAY demo.av_bare)
    (demo.parse_args demo.av_bare demo.w0).2
  = (Return [demo.df_bare; demo.df_dec15],
     (demo.load (namespace demo.TODAY demo.av_bare)
        (demo.parse_args demo.av_bare demo.w0).2).2)
  ∧ columns demo.df_bare = [] ∧ columns demo.df_dec15 = hardcoded_columns
  ∧ schema_guard ∅ [demo.df_bare; demo.df_dec15] = true
  ∧ demo.main demo.av_bare demo.w0
    = (Return (), (demo.main demo.av_bare demo.w0).2)
  ∧ stat (fs (demo.main demo.av_bare demo.w0).2)
      ["out"; "2020-12-21_report.md"]
    = Some (File demo.report_md_text).
Proof.
  split; [vm_compute; reflexivity|].
  split; [reflexivity|]. split; [reflexivity|].
  split; [vm_compute; reflexivity|].
  split; vm_compute; reflexivity.
Qed.

(** * Further properties *)

(** ** The two frames of the merge *)

Lemma StronglySorted_le_lt (l : list Z) :
  StronglySorted Z.le l → NoDup l → StronglySorted Z.lt l.
Proof.
  induction 1 as [|x l Hl IH Hx]; intros Hnd; [constructor|].
  apply NoDup_cons in Hnd as [Hx' Hnd]. constructor; [by apply IH|].
  rewrite Forall_forall in Hx |- *. intros y Hy.
  specialize (Hx y Hy). assert (x ≠ y) by by intros ->. lia.
Qed.

Lemma length_remove_dups (l : list Z) :
  (length (remove_dups l) ≤ length l)%nat.
Proof.
  induction l as [|x l IH]; simpl; [done|].
  destruct (decide_rel _ _ _); simpl; lia.
Qed.

Lemma length_timestamps dfs :
  length (timestamps dfs) = sum_list ((λ df, length (rows df)) <$> dfs).
Proof.
  unfold timestamps, index. induction dfs as [|df dfs IH]; [done|].
  rewrite bind_cons, length_app, length_fmap, IH. done.
Qed.



(** X2. The aggregate of line 106 has its index in strictly ascending
    order, one field per column in every row, and not more rows than there
    are samples. *)
Theorem df_agg_index_ascending dfs S :
  df_agg dfs = Some S →
  StronglySorted Z.lt (index S)
  ∧ Forall (λ r, length r.2 = length (columns S)) (rows S)
  ∧ (length (rows S) ≤ sum_list ((λ df, length (rows df)) <$> dfs))%nat.
Proof.
  intros HS. pose proof (index_df_agg _ _ HS) as Hix.
  destruct (df_agg_Some _ _ HS) as (_ & Hc & Hr).
  split; [|split].
  - rewrite Hix. apply StronglySorted_le_lt.
    + apply Sorted_StronglySorted; [apply _|].
      apply Sorted_merge_sort. apply _.
    + rewrite merge_sort_Permutation. apply NoDup_remove_dups.
  - rewrite Hr, Hc, Forall_fmap. apply Forall_forall. intros k _. simpl.
    by rewrite length_fmap.
  - rewrite <-length_timestamps, <-(length_fmap fst (rows S)).
    fold (index S). rewrite Hix, merge_sort_Permutation.
    apply length_remove_dups.
Qed.

Lemma df_agg_index_ascending_scenario :
  ∃ S, df_agg [fragA; fragB] = Some S
       ∧ StronglySorted Z.lt (index S)
       ∧ (length (rows S) ≤ 4)%nat.
Proof.
  eexists. split; [reflexivity|].
  destruct (df_agg_index_ascending [fragA; fragB] _ eq_refl)
    as (Hsorted & _ & Hlen).
  split; [exact Hsorted|exact Hlen].
Defined.

Lemma get_self cols vs :
  NoDup cols → length vs = length cols → get cols vs <$> cols = vs.
Proof.
  revert vs. induction cols as [|c cols IH]; intros [|v vs] Hnd Hlen;
    try done.
  apply NoDup_cons in Hnd as [Hc Hnd]. injection Hlen as Hlen.
  rewrite fmap_cons. f_equal; [by simpl; rewrite decide_True|].
  transitivity (get cols vs <$> cols); [|by apply IH].
  apply list_fmap_ext. intros _ c' Hc'%list_elem_of_lookup_2.
  simpl. rewrite decide_False; [done|]. by intros ->.
Qed.

Lemma filter_key_absent {B} (l : list (Z * B)) k :
  k ∉ l.*1 → filter (λ x, x.1 = k) l = [].
Proof.
  induction l as [|x l IH]; intros Hk; [done|].
  rewrite fmap_cons in Hk. rewrite filter_cons, decide_False.
  - apply IH. intros ?. apply Hk. by right.
  - intros Hx. apply Hk. rewrite <-Hx. left.
Qed.

Lemma filter_key_unique {B} (l : list (Z * B)) r :
  NoDup l.*1 → r ∈ l → filter (λ x, x.1 = r.1) l = [r].
Proof.
  induction l as [|x l IH]; intros Hnd Hr; [by apply elem_of_nil in Hr|].
  rewrite fmap_cons in Hnd. apply NoDup_cons in Hnd as [Hx Hnd].
  rewrite filter_cons. apply elem_of_cons in Hr as [->|Hr].
  - rewrite decide_True by done. f_equal. by apply filter_key_absent.
  - rewrite decide_False; [by apply IH|].
    intros Hxr. apply Hx. rewrite Hxr. by apply list_elem_of_fmap_2.
Qed.

(** X3. One fragment whose instants are distinct, whose column labels are
    distinct and whose rows have one field per column is merged into
    itself: the aggregate has its columns and its rows, sorted by the
    index, under the index name [time]. *)
Theorem df_agg_single_fragment df :
  NoDup (index df) →
  NoDup (columns df) →
  Forall (λ r, length r.2 = length (columns df)) (rows df) →
  df_agg [df]
  = Some {| index_name := Some "time"; columns := columns df;
            rows := merge_sort row_le (rows df) |}.
Proof.
  intros Hix Hcols Hrect.
  destruct (df_agg_is_Some [df]) as [S HS]; [done|]. rewrite HS. f_equal.
  destruct (df_agg_Some _ _ HS) as (Hn & Hc & Hr).
  rewrite combined_columns_singleton in Hc, Hr.
  assert (timestamps [df] = index df) as Hts.
  { unfold timestamps. by rewrite bind_singleton. }
  rewrite Hts in Hr.
  assert (merge_sort Z.le (remove_dups (index df))
          = (merge_sort row_le (rows df)).*1) as Hkeys.
  { apply (Sorted_unique Z.le); try apply _.
    - apply Sorted_merge_sort. apply _.
    - apply (Sorted_fmap _ row_le); [done|].
      apply Sorted_merge_sort. intros r1 r2. unfold row_le. lia.
    - rewrite !merge_sort_Permutation. fold (index df).
      apply NoDup_Permutation; [apply NoDup_remove_dups|done|].
      intros x. apply elem_of_remove_dups. }
  assert (rows S = merge_sort row_le (rows df)) as Hrows.
  { rewrite Hr, Hkeys, <-list_fmap_compose.
    transitivity (id <$> merge_sort row_le (rows df)); [|apply list_fmap_id].
    apply list_fmap_ext. intros _ r Hin%list_elem_of_lookup_2.
    rewrite merge_sort_Permutation in Hin. destruct r as [k vs].
    unfold compose, id. cbn [fst]. f_equal.
    transitivity (get (columns df) vs <$> columns df).
    2:{ apply get_self; [done|].
        rewrite Forall_forall in Hrect. by apply (Hrect (k, vs)). }
    apply list_fmap_ext. intros _ c _. rewrite converted_singleton.
    unfold observations. rewrite bind_singleton.
    pose proof (filter_key_unique (rows df) (k, vs) Hix Hin) as Hone.
    cbn [fst] in Hone. rewrite Hone.
    by rewrite list_fmap_singleton, cell_max_singleton. }
  destruct S; simpl in *; congruence.
Qed.

Lemma df_agg_single_fragment_scenario :
  df_agg [fragA_reversed]
  = Some {| index_name := Some "time"; columns := ["clones_total"];
            rows := merge_sort row_le (rows fragA_reversed) |}.
Proof.
  apply (df_agg_single_fragment fragA_reversed).
  - apply (bool_decide_unpack _). vm_compute. reflexivity.
  - apply (bool_decide_unpack _). vm_compute. reflexivity.
  - repeat constructor.
Defined.

(** ** The return code of Pandoc *)

Lemma same_but_log_bind {A B} (m : M A) (f g : A → M B) w :
  (∀ a w1, same_but_log (f a w1) (g a w1)) →
  same_but_log ((m ≫= f) w) ((m ≫= g) w).
Proof.
  intros Hfg. unfold mbind, M_bind.
  destruct (m w) as [[a|code|e] w1]; [apply Hfg|done..].
Qed.

(** X12. How Pandoc ends has no effect on how the run ends: with two
    commands that leave the same file system but may return different
    codes, the run has the same outcome, file system, [OUTDIR] and printed
    frames; the code is only logged. *)
Theorem main_ignores_pandoc_returncode TODAY report_md_text tokenize
    to_datetime chart_html
    (sp sp' : list arg → node → option (node * Z)) av w :
  (∀ cmd root, fst <$> sp cmd root = fst <$> sp' cmd root) →
  same_but_log
    (main TODAY report_md_text tokenize to_datetime chart_html sp av w)
    (main TODAY report_md_text tokenize to_datetime chart_html sp' av w).
Proof.
  intros Hsp. unfold main, report.
  repeat (apply same_but_log_bind; intros ? ?).
  match goal with
  | |- same_but_log ((run sp ?cmd ≫= _) ?w') _ =>
      specialize (Hsp cmd (fs w'))
  end.
  unfold mbind, M_bind, run.
  destruct (sp _ _) as [[root code]|], (sp' _ _) as [[root' code']|];
    try done.
  injection Hsp as <-.
  by destruct (decide (code = 0)), (decide (code' = 0)).
Qed.

(** ** Further runs of the example *)

Lemma resolve_cons_None root c q :
  resolve root [c] = None → resolve root (c :: q) = None.
Proof.
  destruct root as [text|es]; [done|]. cbn [resolve].
  by destruct (es !! c).
Qed.

Lemma output_path_is_file_exits_demo :
  demo.main demo.av_file_out demo.w0
  = (Exit 1,
     {| fs := fs demo.w0; OUTDIR := None;
        log := [(ERROR,
                 "The specified output directory path does not point to a directory: %s",
                 [APath ["dec15.csv"]])];
        stdout := [] |}).
Proof.
  apply (output_path_is_file_exits demo.TODAY demo.report_md_text
           demo.tokenize demo.to_datetime demo.chart_html
           demo.subprocess_run demo.av_file_out demo.w0 "dec15").
  - discriminate.
  - vm_compute. reflexivity.
Defined.





Lemma exit_status_of_program_demo :
  exit_status
    (demo.program ["dec15.csv"; "--bogus"; "--output-directory"; "out"]
       demo.w0).1 = 2
  ∧ exit_status (demo.program ["--help"; "dec15.csv"] demo.w0).1 = 0
  ∧ exit_status
      (demo.program ["dec15.csv"; "broken.csv"; "--output-directory=out"]
         demo.w0).1 = 1.
Proof.
  split; [|split].
  - apply (exit_status_of_program demo.TODAY demo.report_md_text
             demo.tokenize demo.to_datetime demo.chart_html
             demo.subprocess_run
             ["dec15.csv"; "--bogus"; "--output-directory"; "out"] demo.w0).
    + repeat constructor.
    + vm_compute. reflexivity.
  - apply (exit_status_of_program demo.TODAY demo.report_md_text
             demo.tokenize demo.to_datetime demo.chart_html
             demo.subprocess_run ["--help"; "dec15.csv"] demo.w0).
    + repeat constructor.
    + vm_compute. reflexivity.
  - vm_compute. reflexivity.
Defined.

Lemma load_returns_fragments_demo :
  (demo.load (namespace demo.TODAY demo.av_ok)
     (demo.parse_args demo.av_ok demo.w0).2).1
  = Return [demo.df_dec15; demo.df_dec21].
Proof.
  unfold demo.load.
  rewrite (load_returns_fragments demo.tokenize demo.to_datetime
             (namespace demo.TODAY demo.av_ok)
             (demo.parse_args demo.av_ok demo.w0).2
             [demo.df_dec15; demo.df_dec21]).
  - reflexivity.
  - constructor; [vm_compute; reflexivity|].
    constructor; [vm_compute; reflexivity|]. constructor.
  - assert (∀ d, d ∈ [demo.df_dec15; demo.df_dec21] →
                 columns d = demo.full_header) as Hcols.
    { intros d [->|Hd]%elem_of_cons; [reflexivity|].
      apply list_elem_of_singleton in Hd as ->. reflexivity. }
    intros df df' Hdf Hdf'. by rewrite (Hcols df Hdf), (Hcols df' Hdf').
Defined.

Lemma load_stops_at_first_mismatch_demo :
  (demo.load (namespace demo.TODAY demo.av_mismatch)
     (demo.parse_args demo.av_mismatch demo.w0).2).1
  = Exit 1.
Proof.
  unfold demo.load.
  rewrite (load_stops_at_first_mismatch demo.tokenize demo.to_datetime
             (namespace demo.TODAY demo.av_mismatch)
             (demo.parse_args demo.av_mismatch demo.w0).2
             [["dec15.csv"]] ["clones.csv"] [["dec21.csv"]]
             [demo.df_dec15] fragA (list_to_set demo.full_header)).
  - reflexivity.
  - reflexivity.
  - constructor; [vm_compute; reflexivity|]. constructor.
  - discriminate.
  - intros E. apply (not_elem_of_empty (C:=gset string) "clones_unique").
    rewrite <-E. apply elem_of_list_to_set.
    apply (bool_decide_unpack _). vm_compute. reflexivity.
  - constructor; [reflexivity|constructor].
  - vm_compute. reflexivity.
  - intros E.
    assert ("clones_unique" ∈@{gset string} list_to_set (columns fragA))
      as Hin.
    { rewrite E. apply elem_of_list_to_set.
      apply (bool_decide_unpack _). vm_compute. reflexivity. }
    apply elem_of_list_to_set, list_elem_of_singleton in Hin. discriminate.
Defined.

Lemma main_ignores_pandoc_returncode_demo :
  same_but_log
    (demo.main demo.av_ok demo.w0)
    (main demo.TODAY demo.report_md_text demo.tokenize demo.to_datetime
       demo.chart_html demo.failing_pandoc demo.av_ok demo.w0).
Proof.
  apply (main_ignores_pandoc_returncode demo.TODAY demo.report_md_text
           demo.tokenize demo.to_datetime demo.chart_html
           demo.subprocess_run demo.failing_pandoc demo.av_ok demo.w0).
  intros cmd root. reflexivity.
Defined.

Lemma main_returns_only_with_the_four_columns_demo :
  ∃ S, last (stdout (demo.main demo.av_ok demo.w0).2) = Some S
       ∧ (∀ c, c ∈ hardcoded_columns → c ∈ columns S)
       ∧ "time" ∉ columns S.
Proof.
  apply (main_returns_only_with_the_four_columns demo.TODAY
           demo.report_md_text demo.tokenize demo.to_datetime
           demo.chart_html demo.subprocess_run demo.av_ok demo.w0
           (demo.main demo.av_ok demo.w0).2).
  vm_compute. reflexivity.
Defined.

Lemma main_returns_after_pandoc_demo :
  ∃ root code es,
    demo.subprocess_run
      [AStr "pandoc"; AStr "--toc"; AStr "--standalone";
       AStr "--template=resources/template.html";
       APath ["out"; "2020-12-21_report.md"]; AStr "-o";
       APath ["out"; "2020-12-21_report.html"]]
      root = Some (fs (demo.main demo.av_ok demo.w0).2, code)
    ∧ stat root ["out"; "2020-12-21_report.md"]
      = Some (File demo.report_md_text)
    ∧ stat root ["out"; "resources"] = Some (Dir es)
    ∧ es = list_to_map [("template.html", File "<html>")].
Proof.
  destruct (main_returns_after_pandoc demo.TODAY demo.report_md_text
              demo.tokenize demo.to_datetime demo.chart_html
              demo.subprocess_run demo.av_ok demo.w0
              (demo.main demo.av_ok demo.w0).2)
    as (w1 & root4 & root7 & root & code & clones & views & es
        & Hparse & Hchart & Hmd & Hsrc & _ & Hrun & _ & Hrep & Hres & _).
  - repeat constructor.
  - repeat constructor.
  - intros [k Hk]. discriminate.
  - vm_compute. reflexivity.
  - exists root, code, es.
    split; [exact Hrun|]. split; [exact Hrep|]. split; [exact Hres|].
    assert (w1 = (demo.parse_args demo.av_ok demo.w0).2) as ->.
    { unfold demo.parse_args. by rewrite Hparse. }
    assert (root4
            = default (fs demo.w0)
                (write_file (fs (demo.parse_args demo.av_ok demo.w0).2)
                   ["chart.html"] "<html>")) as ->.
    { unfold demo.chart_html in Hchart. by rewrite Hchart. }
    assert (root7
            = default (fs demo.w0)
                (write_file
                   (default (fs demo.w0)
                      (write_file (fs (demo.parse_args demo.av_ok demo.w0).2)
                         ["chart.html"] "<html>"))
                   ["out"; "2020-12-21_report.md"] demo.report_md_text))
      as ->.
    { change (namespace demo.TODAY demo.av_ok).(output_directory)
        with ["out"] in Hmd.
      change ([ "out" ] ++ [demo.TODAY +:+ "_report.md"])
        with ["out"; "2020-12-21_report.md"] in Hmd.
      by rewrite Hmd. }
    change (resources_directory (namespace demo.TODAY demo.av_ok))
      with ["resources"] in Hsrc.
    assert (Some (Dir es)
            = Some (Dir (list_to_map [("template.html", File "<html>")])))
      as Heq; [|by injection Heq].
    rewrite <-Hsrc. vm_compute. reflexivity.
Defined.

(** ** The two frames of the charts *)

Lemma get_filter_zip (P : string → Prop) `{∀ c, Decision (P c)} cols vs c :
  P c →
  get (filter P cols) (filter (λ cv : string * cell, P cv.1) (zip cols vs)).*2 c
  = get cols vs c.
Proof.
  intros Hc. revert vs. induction cols as [|c' cols IH]; intros [|v vs];
    try done.
  - cbn [zip zip_with]. rewrite filter_nil. cbn [fmap list_fmap].
    by destruct (filter P (c' :: cols)).
  - cbn [zip zip_with]. rewrite !filter_cons. cbn [fst].
    destruct (decide (P c')) as [Hc'|Hc'].
    + rewrite fmap_cons. cbn [get snd].
      destruct (decide (c' = c)); [done|]. apply IH.
    + cbn [get]. rewrite decide_False by by intros ->. apply IH.
Qed.

(** The frame [df.reset_index().drop(columns=labels)] of an aggregate. *)
Lemma reset_index_drop agg tbl labels V name :
  index_name agg = Some name → name ∉ labels →
  reset_index agg = inr tbl → drop labels tbl = inr V →
  columns V = name :: filter (λ c, c ∉ labels) (columns agg)
  ∧ length (rows V) = length (rows agg)
  ∧ ∀ i r, rows agg !! i = Some r →
      ∃ v, rows V !! i = Some v
           ∧ v.1 = Z.of_nat i
           ∧ get (columns V) v.2 name = Some r.1
           ∧ ∀ c, c ∉ labels → c ≠ name →
                  get (columns V) v.2 c = get (columns agg) r.2 c.
Proof.
  intros Hname Hlab Hreset Hdrop. unfold reset_index in Hreset.
  rewrite Hname in Hreset. cbv zeta in Hreset.
  cbn [default from_option id] in Hreset. unfold id in Hreset.
  destruct (decide (name ∈ columns agg)); [done|]. injection Hreset as <-.
  unfold drop in Hdrop. cbn [columns rows index_name] in Hdrop.
  destruct (filter _ labels); [|done]. injection Hdrop as <-.
  cbn [columns rows]. rewrite filter_cons, decide_True by done.
  split; [done|]. split; [by rewrite length_fmap, length_imap|].
  intros i r Hr.
  pose proof (get_filter_zip (λ c, c ∉ labels) (name :: columns agg)
                (Some r.1 :: r.2)) as Hget.
  rewrite filter_cons, decide_True in Hget by done.
  unfold cell in *.
  rewrite list_lookup_fmap, list_lookup_imap, Hr.
  eexists. split; [done|]. cbn [fst snd]. split; [done|].
  split.
  - etransitivity; [exact (Hget name Hlab)|].
    cbn [get]. by rewrite decide_True.
  - intros c Hc Hne. etransitivity; [exact (Hget c Hc)|].
    cbn [get]. by rewrite decide_False by done.
Qed.

(** X15. The two frames the charts are drawn from, [df_agg_views] and
    [df_agg_clones] of lines 135 to 138, have the column [time] followed by
    the columns of the aggregate other than the two that are dropped, and
    as many rows as the aggregate; row by row they hold the instant of the
    aggregate under [time] and its value under every column kept. *)
Theorem views_and_clones_frames agg tbl views clones :
  index_name agg = Some "time" →
  reset_index agg = inr tbl →
  drop ["clones_unique"; "clones_total"] tbl = inr views →
  drop ["views_unique"; "views_total"] tbl = inr clones →
  columns views
  = "time" :: filter (λ c, c ∉ ["clones_unique"; "clones_total"]) (columns agg)
  ∧ columns clones
    = "time" :: filter (λ c, c ∉ ["views_unique"; "views_total"]) (columns agg)
  ∧ length (rows views) = length (rows agg)
  ∧ length (rows clones) = length (rows agg)
  ∧ ∀ i r, rows agg !! i = Some r →
      ∃ v k, rows views !! i = Some v ∧ rows clones !! i = Some k
        ∧ get (columns views) v.2 "time" = Some r.1
        ∧ get (columns clones) k.2 "time" = Some r.1
        ∧ (∀ c, c ∉ ["clones_unique"; "clones_total"] → c ≠ "time" →
                get (columns views) v.2 c = get (columns agg) r.2 c)
        ∧ (∀ c, c ∉ ["views_unique"; "views_total"] → c ≠ "time" →
                get (columns clones) k.2 c = get (columns agg) r.2 c).
Proof.
  intros Hname Hreset Hviews Hclones.
  assert ("time" ∉ ["clones_unique"; "clones_total"]) as H1.
  { rewrite !elem_of_cons, elem_of_nil. by intros [?|[?|[]]]. }
  assert ("time" ∉ ["views_unique"; "views_total"]) as H2.
  { rewrite !elem_of_cons, elem_of_nil. by intros [?|[?|[]]]. }
  destruct (reset_index_drop _ _ _ _ _ Hname H1 Hreset Hviews)
    as (Hcv & Hlv & Hrv).
  destruct (reset_index_drop _ _ _ _ _ Hname H2 Hreset Hclones)
    as (Hcc & Hlc & Hrc).
  split; [done|]. split; [done|]. split; [done|]. split; [done|].
  intros i r Hr.
  destruct (Hrv i r Hr) as (v & Hv & _ & Hvt & Hvc).
  destruct (Hrc i r Hr) as (k & Hk & _ & Hkt & Hkc).
  by exists v, k.
Qed.

Lemma views_and_clones_frames_demo :
  df_agg [demo.df_dec15; demo.df_dec21] = Some demo.agg_ok
  ∧ columns demo.views_ok = ["time"; "views_unique"; "views_total"]
  ∧ columns demo.clones_ok = ["time"; "clones_unique"; "clones_total"]
  ∧ length (rows demo.views_ok) = 3%nat
  ∧ rows demo.clones_ok !! 2%nat
    = Some (2, [Some (86400000000000 * 18603); Some 9; Some 73]).
Proof.
  split; [vm_compute; reflexivity|].
  destruct (views_and_clones_frames demo.agg_ok demo.tbl_ok demo.views_ok
              demo.clones_ok) as (Hcv & Hcc & Hlv & _).
  - reflexivity.
  - vm_compute. reflexivity.
  - vm_compute. reflexivity.
  - vm_compute. reflexivity.
  - split; [exact Hcv|]. split; [exact Hcc|]. split; [exact Hlv|].
    vm_compute. reflexivity.
Defined.
